(** * WebSpectrometer: a shallow embedding of the spectral pipeline

    The development follows the JavaScript sources of the repository:

    - [JSNum]             the number type of the program;
    - [Spectragraph]      js/spectragraph.js (calibration, sensor range,
                          display range, zoom, peak search, CSV wavelengths);
    - [SpectragraphCopy]  the methods of the second copy of that class that
                          differ (sensor range, display range, zoom);
    - [Main]              js/main.js (the calibrate click handlers);
    - [ImageProcessor]    js/imageProcessor.js (column averaging);
    - [QEImageProcessor]  the ImageProcessor class that carries the
                          quantum-efficiency hook;
    - [RecordingManager]  the recorder (start checks and sampling tick);
    - [Overflow]          the sensor range, the zoom step and the sampling
                          tick once more, over arithmetic that overflows.

    Numbers.  A JavaScript number is modelled by [JSNum.num]: a finite value
    is an exact rational, and the three special values [Infinity],
    [-Infinity] and [NaN] are kept with their IEEE-754 arithmetic and
    comparison rules.  Rounding error of binary floating point and the sign
    of zero are not represented: a zero divisor is taken as [+0].  Overflow
    to an infinity is represented in the module [Overflow] only; the
    statements that depend on it say on which inputs no result overflows. *)

From Stdlib Require Import QArith Qround Qabs ZArith String List Bool Lia Lqa.
Import ListNotations.

Set Implicit Arguments.

(* ------------------------------------------------------------------ *)
(** ** JavaScript numbers *)

Module JSNum.

Open Scope Q_scope.

Inductive num : Type :=
| Fin (q : Q)
| PInf
| NInf
| NaN.

Definition isNaN (a : num) : bool :=
  match a with NaN => true | _ => false end.

Definition isFinite (a : num) : bool :=
  match a with Fin _ => true | _ => false end.

(** Sign of a number as a comparison with zero; [Eq] also stands for the
    absence of a sign ([NaN]). *)
Definition sgn (a : num) : comparison :=
  match a with
  | Fin q => q ?= 0
  | PInf => Gt
  | NInf => Lt
  | NaN => Eq
  end.

Definition sgn_mul (c d : comparison) : comparison :=
  match c, d with
  | Eq, _ | _, Eq => Eq
  | Gt, Gt | Lt, Lt => Gt
  | _, _ => Lt
  end.

(** The infinity of a given sign; a product or quotient whose sign is
    undetermined ([0 * Infinity], [0 / 0]) is [NaN]. *)
Definition inf_of (c : comparison) : num :=
  match c with Gt => PInf | Lt => NInf | Eq => NaN end.

Definition neg (a : num) : num :=
  match a with
  | Fin q => Fin (- q)
  | PInf => NInf
  | NInf => PInf
  | NaN => NaN
  end.

Definition add (a b : num) : num :=
  match a, b with
  | NaN, _ | _, NaN => NaN
  | Fin p, Fin q => Fin (p + q)
  | PInf, NInf | NInf, PInf => NaN
  | PInf, _ | _, PInf => PInf
  | NInf, _ | _, NInf => NInf
  end.

Definition sub (a b : num) : num := add a (neg b).

Definition mul (a b : num) : num :=
  match a, b with
  | NaN, _ | _, NaN => NaN
  | Fin p, Fin q => Fin (p * q)
  | _, _ => inf_of (sgn_mul (sgn a) (sgn b))
  end.

Definition div (a b : num) : num :=
  match a, b with
  | NaN, _ | _, NaN => NaN
  | Fin p, Fin q => if Qeq_bool q 0 then inf_of (p ?= 0) else Fin (p / q)
  | Fin _, _ => Fin 0
  | _, Fin q => inf_of (sgn_mul (sgn a) (if Qeq_bool q 0 then Gt else q ?= 0))
  | _, _ => NaN
  end.

(** Three-way comparison; [None] when an operand is [NaN]. *)
Definition cmp (a b : num) : option comparison :=
  match a, b with
  | NaN, _ | _, NaN => None
  | Fin p, Fin q => Some (p ?= q)
  | PInf, PInf | NInf, NInf => Some Eq
  | PInf, _ | _, NInf => Some Gt
  | _, PInf | NInf, _ => Some Lt
  end.

Definition ltb (a b : num) : bool :=
  match cmp a b with Some Lt => true | _ => false end.

Definition leb (a b : num) : bool :=
  match cmp a b with Some Lt | Some Eq => true | _ => false end.

Definition gtb (a b : num) : bool := ltb b a.
Definition geb (a b : num) : bool := leb b a.

(** [===] on two numbers. *)
Definition eqb (a b : num) : bool :=
  match cmp a b with Some Eq => true | _ => false end.

(** [Math.min] and [Math.max]: [NaN] as soon as one argument is [NaN]. *)
Definition min (a b : num) : num :=
  match cmp a b with
  | None => NaN
  | Some Gt => b
  | Some _ => a
  end.

Definition max (a b : num) : num :=
  match cmp a b with
  | None => NaN
  | Some Lt => b
  | Some _ => a
  end.

(** [Math.floor] and [Math.round] (ties go up). *)
Definition floor (a : num) : num :=
  match a with
  | Fin q => Fin (inject_Z (Qfloor q))
  | _ => a
  end.

Definition round (a : num) : num :=
  match a with
  | Fin q => Fin (inject_Z (Qfloor (q + (1 # 2))))
  | _ => a
  end.

(** [x.toFixed(d)]: the decimal string is represented by the number it
    denotes.  With [scale = 10^d], the digits are those of the nearest
    multiple of [1 / scale] of the magnitude, the larger one on a tie, and
    the sign is put back in front. *)
Definition toFixedQ (scale : Z) (q : Q) : Q :=
  match q ?= 0 with
  | Lt => - (inject_Z (Qfloor (- q * inject_Z scale + (1 # 2))) / inject_Z scale)
  | _ => inject_Z (Qfloor (q * inject_Z scale + (1 # 2))) / inject_Z scale
  end.

Definition toFixed (digits : nat) (a : num) : num :=
  match a with
  | Fin q => Fin (toFixedQ (10 ^ Z.of_nat digits) q)
  | _ => a
  end.

(** [v || 0] on a number: [0] and [NaN] are falsy. *)
Definition orZero (a : num) : num :=
  match a with
  | NaN => Fin 0
  | _ => a
  end.

(** Two representations of the same number. *)
Definition num_eq (a b : num) : Prop :=
  match a, b with
  | Fin p, Fin q => p == q
  | PInf, PInf | NInf, NInf | NaN, NaN => True
  | _, _ => False
  end.

Definition ofZ (z : Z) : num := Fin (inject_Z z).

End JSNum.

Import JSNum.

Declare Scope num_scope.
Delimit Scope num_scope with num.
Bind Scope num_scope with num.
Infix "+" := add : num_scope.
Infix "-" := sub : num_scope.
Infix "*" := mul : num_scope.
Infix "/" := div : num_scope.
Infix "<?" := ltb : num_scope.
Infix "<=?" := leb : num_scope.
Infix ">?" := gtb : num_scope.
Infix ">=?" := geb : num_scope.
Infix "=n=" := num_eq (at level 70) : num_scope.
Coercion Fin : Q >-> num.

(* ------------------------------------------------------------------ *)
(** ** js/spectragraph.js *)

Module Spectragraph.

Open Scope num_scope.

Record Point : Type := { x : num; wavelength : num }.
Record Calibration : Type := { point1 : Point; point2 : Point }.
Record Range : Type := { start : num; end_ : num }.

(** The fields of the class that the modelled methods read or write.  An
    array field is [None] when it holds [null] or [undefined]. *)
Record State : Type := {
  data : option (list num);
  rawData : option (list num);
  calibration : Calibration;
  displayRange : Range;
  showCalibrationLines : bool;
  isReversed : bool;
  zoomFactor : num;
  canvas_width : num
}.

Definition defaultCalibration : Calibration :=
  {| point1 := {| x := 1623; wavelength := 405.4 |};
     point2 := {| x := 1238; wavelength := 611.6 |} |}.

(** The state built by the constructor, for a canvas of the given width. *)
Definition constructor (width : num) : State :=
  {| data := Some (repeat (Fin 0) 960);
     rawData := Some (repeat (Fin 0) 960);
     calibration := defaultCalibration;
     displayRange := {| start := 350; end_ := 1200 |};
     showCalibrationLines := true;
     isReversed := false;
     zoomFactor := 1.1;
     canvas_width := width |}.

Definition set_calibration (st : State) (c : Calibration) : State :=
  {| data := data st; rawData := rawData st; calibration := c;
     displayRange := displayRange st;
     showCalibrationLines := showCalibrationLines st;
     isReversed := isReversed st; zoomFactor := zoomFactor st;
     canvas_width := canvas_width st |}.

Definition set_displayRange (st : State) (r : Range) : State :=
  {| data := data st; rawData := rawData st; calibration := calibration st;
     displayRange := r;
     showCalibrationLines := showCalibrationLines st;
     isReversed := isReversed st; zoomFactor := zoomFactor st;
     canvas_width := canvas_width st |}.

Definition set_data (st : State) (d r : option (list num)) : State :=
  {| data := d; rawData := r; calibration := calibration st;
     displayRange := displayRange st;
     showCalibrationLines := showCalibrationLines st;
     isReversed := isReversed st; zoomFactor := zoomFactor st;
     canvas_width := canvas_width st |}.

(** [wavelengthStep] and [startWavelength], computed the same way in
    [calculateSensorRange], [draw], [drawHoverInfo] and [exportToCSV]. *)
Definition wavelengthPerPixel (c : Calibration) : num :=
  (wavelength (point2 c) - wavelength (point1 c)) / (x (point2 c) - x (point1 c)).

Definition startWavelength (c : Calibration) : num :=
  wavelength (point1 c) - x (point1 c) * wavelengthPerPixel c.

Definition calculateSensorRange (c : Calibration) : Range :=
  let startW := startWavelength c in
  let endW := startW + 1920 * wavelengthPerPixel c in
  let s := min startW endW in
  let e := max startW endW in
  {| start := round (s * 10) / 10; end_ := round (e * 10) / 10 |}.

(** A calibration given by four finite numbers. *)
Definition calibrationOf (x1 w1 x2 w2 : Q) : Calibration :=
  {| point1 := {| x := x1; wavelength := w1 |};
     point2 := {| x := x2; wavelength := w2 |} |}.

Definition updateCalibration (st : State) (p1 p2 : Point) : State :=
  set_calibration st {| point1 := p1; point2 := p2 |}.

(** [parseFloat] applied to a value that is already a number. *)
Definition parseFloat (a : num) : num := a.

Definition updateDisplayRange (st : State) (start0 end0 : num) : State :=
  let start1 := parseFloat start0 in
  let end1 := parseFloat end0 in
  let sensorRange := calculateSensorRange (calibration st) in
  let newStart := max (start sensorRange) (min start1 (end_ sensorRange - 50)) in
  let newEnd := min (end_ sensorRange) (max end1 (start sensorRange + 50)) in
  if newEnd - newStart >=? 50
  then set_displayRange st {| start := newStart; end_ := newEnd |}
  else st.

Definition xToWavelength (st : State) (x0 : num) : num :=
  let range := end_ (displayRange st) - start (displayRange st) in
  start (displayRange st) + (x0 / canvas_width st) * range.

Definition handleZoom (st : State) (mouseX deltaY : num) : State :=
  let sensorRange := calculateSensorRange (calibration st) in
  let zoomIn := deltaY <? 0 in
  let mouseWavelength := xToWavelength st mouseX in
  let currentRange := end_ (displayRange st) - start (displayRange st) in
  let newRange := if zoomIn then currentRange / zoomFactor st
                  else currentRange * zoomFactor st in
  let mouseRatio := (mouseWavelength - start (displayRange st)) / currentRange in
  let newStart0 := mouseWavelength - mouseRatio * newRange in
  let newEnd0 := newStart0 + newRange in
  let newStart := max (start sensorRange) (min newStart0 (end_ sensorRange - 50)) in
  let newEnd := min (end_ sensorRange) (max newEnd0 (start sensorRange + 50)) in
  if newEnd - newStart >=? 50
  then set_displayRange st {| start := newStart; end_ := newEnd |}
  else st.

(** A wheel event: the cursor position and the scroll delta. *)
Definition Wheel : Type := (num * num)%type.

Definition handleZooms (st : State) (ws : list Wheel) : State :=
  fold_left (fun s w => handleZoom s (fst w) (snd w)) ws st.

Definition span (r : Range) : num := end_ r - start r.

(** Two ranges with the same bounds. *)
Definition range_eq (r1 r2 : Range) : Prop :=
  num_eq (start r1) (start r2) /\ num_eq (end_ r1) (end_ r2).

(** The display range lies inside the sensor range and spans at least
    50 nm. *)
Definition wellClamped (st : State) : Prop :=
  let sensorRange := calculateSensorRange (calibration st) in
  (start sensorRange <=? start (displayRange st)) = true /\
  (end_ (displayRange st) <=? end_ sensorRange) = true /\
  (span (displayRange st) >=? 50) = true.

(** The states of a zoom sequence at the left edge of a canvas of 960
    pixels, from the constructor's display range: the start stays at 350 and
    the span is [r]. *)
Definition leftZoomState (c : Calibration) (st : State) (r : Q) : Prop :=
  calibration st = c /\ zoomFactor st = Fin 1.1 /\ canvas_width st = Fin 960 /\
  exists a b, displayRange st = {| start := Fin a; end_ := Fin b |} /\
              (a == 350)%Q /\ (b == 350 + r)%Q.

(** A calibration of 2 nm per pixel: its sensor range is 0 nm to 3840 nm. *)
Definition calibration_0_3840 : Calibration := calibrationOf 0 0 1920 3840.

(** A calibration whose sensor range is 200 nm to 1200 nm. *)
Definition calibration_200_1200 : Calibration := calibrationOf 0 200 1920 1200.

(** *** Array reads *)

(** [a[i]] for a number [i]: [undefined] ([None]) unless [i] is an integer
    index inside the array. *)
Definition get (a : list num) (i : num) : option num :=
  match i with
  | Fin q =>
      if Qeq_bool (inject_Z (Qfloor q)) q && (0 <=? Qfloor q)%Z
      then nth_error a (Z.to_nat (Qfloor q))
      else None
  | _ => None
  end.

(** [undefined] converts to [NaN] in a relational comparison. *)
Definition toNumber (v : option num) : num :=
  match v with Some a => a | None => NaN end.

Definition gt (v w : option num) : bool := toNumber v >? toNumber w.

Definition length_of (a : list num) : num := ofZ (Z.of_nat (length a)).

(** *** findNearestPeak *)

Record Peak : Type := { peak_x : num; peak_value : option num }.

Definition searchRadius : Z := 10.

(** The offsets [-searchRadius .. searchRadius] of the [for] loop. *)
Definition offsets : list Z :=
  map (fun k => (Z.of_nat k - searchRadius)%Z) (seq 0 (Z.to_nat (2 * searchRadius + 1))).

(** The data index under canvas position [x0]. *)
Definition dataIndexAt (width : num) (d : list num) (x0 : num) : num :=
  floor ((x0 / width) * length_of d).

(** One iteration of the search loop. *)
Definition peakStep (width : num) (d : list num) (mouseX : num)
    (acc : Peak) (offset : Z) : Peak :=
  let x0 := mouseX + ofZ offset in
  if (x0 >=? 0) && (x0 <? width) then
    let dataIndex := dataIndexAt width d x0 in
    let value := get d dataIndex in
    if (dataIndex >? 1) && (dataIndex <? length_of d - 2) then
      if gt value (get d (dataIndex - 2)) &&
         gt value (get d (dataIndex - 1)) &&
         gt value (get d (dataIndex + 1)) &&
         gt value (get d (dataIndex + 2)) &&
         gt value (peak_value acc) &&
         gt value (Some (Fin 0.05))
      then {| peak_x := x0; peak_value := value |}
      else acc
    else acc
  else acc.

(** [findNearestPeak(mouseX)], reading [this.canvas.width] and [this.data]. *)
Definition findNearestPeak (width : num) (d : list num) (mouseX : num) : Peak :=
  let peak0 := {| peak_x := mouseX;
                  peak_value := get d (dataIndexAt width d mouseX) |} in
  fold_left (peakStep width d mouseX) offsets peak0.

(** The value read under canvas position [x0]. *)
Definition valueAt (width : num) (d : list num) (x0 : num) : option num :=
  get d (dataIndexAt width d x0).

(** The tests of the loop body that do not involve the running peak: the
    position is on the canvas, its index has two neighbours on each side,
    the value exceeds the four of them and the 0.05 threshold. *)
Definition isPeakAt (width : num) (d : list num) (x0 : num) : bool :=
  (x0 >=? 0) && (x0 <? width) &&
  ((dataIndexAt width d x0 >? 1) && (dataIndexAt width d x0 <? length_of d - 2)) &&
  (gt (valueAt width d x0) (get d (dataIndexAt width d x0 - 2)) &&
   gt (valueAt width d x0) (get d (dataIndexAt width d x0 - 1)) &&
   gt (valueAt width d x0) (get d (dataIndexAt width d x0 + 1)) &&
   gt (valueAt width d x0) (get d (dataIndexAt width d x0 + 2)) &&
   gt (valueAt width d x0) (Some (Fin 0.05))).

(** A small peak (0.2 at index 5) next to a rising edge. *)
Definition edgeProfile : list num :=
  [Fin 0; Fin 0; Fin 0; Fin 0.1; Fin 0.15; Fin 0.2; Fin 0.15; Fin 0.1;
   Fin 0.3; Fin 0.4; Fin 0.5; Fin 0.6; Fin 0.7; Fin 0.8; Fin 0.9].

(** A single maximum of 1 at index 5. *)
Definition peakProfile : list num :=
  [Fin 0.1; Fin 0.2; Fin 0.3; Fin 0.5; Fin 0.8; Fin 1; Fin 0.7; Fin 0.4;
   Fin 0.3; Fin 0.2; Fin 0.1; Fin 0.05].

(** *** getCurrentData *)

Record CurrentData : Type := {
  raw : list num;
  corrected : list num;
  length_ : nat
}.

Definition getCurrentData (st : State) : option CurrentData :=
  match data st, rawData st with
  | Some d, Some r =>
      let n := Nat.min (length d) (length r) in
      Some {| raw := map orZero (firstn n r);
              corrected := map orZero (firstn n d);
              length_ := n |}
  | _, _ => None
  end.

(** *** exportToCSV *)








End Spectragraph.

(* ------------------------------------------------------------------ *)
(** ** The second copy of the Spectragraph class (src/unnamed/part_003)

    The repository holds another copy of the class, with the same fields
    and constructor.  Three of its methods differ from js/spectragraph.js
    and are modelled here under their own names. *)

Module SpectragraphCopy.

Import Spectragraph.
Open Scope num_scope.

Definition calculateSensorRange (c : Calibration) : Range :=
  let startW := startWavelength c in
  let endW := startW + 1920 * wavelengthPerPixel c in
  {| start := round (startW * 100) / 100; end_ := round (endW * 100) / 100 |}.

Definition updateDisplayRange (st : State) (start0 end0 : num) : State :=
  if start0 >=? end0 then st
  else
    let sensorRange := calculateSensorRange (calibration st) in
    let newStart := max (start sensorRange) (min start0 (end_ sensorRange)) in
    let newEnd := min (end_ sensorRange) (max end0 (start sensorRange)) in
    if newEnd - newStart <? 100 then st
    else if newStart <? newEnd
         then set_displayRange st {| start := newStart; end_ := newEnd |}
         else st.

Definition handleZoom (st : State) (mouseX deltaY : num) : State :=
  let width := canvas_width st in
  let dr := displayRange st in
  let wavelengthAtCursor :=
    if isReversed st
    then end_ dr - (mouseX / width) * (end_ dr - start dr)
    else start dr + (mouseX / width) * (end_ dr - start dr) in
  let currentRange := end_ dr - start dr in
  let newRange := if deltaY >? 0 then currentRange * zoomFactor st
                  else currentRange / zoomFactor st in
  let minRange := Fin 100 in
  let maxRange := Fin 2000 in
  if (newRange >=? minRange) && (newRange <=? maxRange) then
    let cursorPercent := (wavelengthAtCursor - start dr) / currentRange in
    let newStart0 := wavelengthAtCursor - newRange * cursorPercent in
    let newEnd0 := newStart0 + newRange in
    let '(newStart1, newEnd1) :=
      if newStart0 <? 200 then (Fin 200, Fin 200 + newRange)
      else (newStart0, newEnd0) in
    let '(newStart2, newEnd2) :=
      if newEnd1 >? 2000 then (Fin 2000 - newRange, Fin 2000)
      else (newStart1, newEnd1) in
    set_displayRange st {| start := newStart2; end_ := newEnd2 |}
  else st.

End SpectragraphCopy.

(* ------------------------------------------------------------------ *)
(** ** js/main.js: the two click handlers of the calibrate button *)

Module Main.

Import Spectragraph.
Open Scope string_scope.

(** What the user sees after a click. *)
Inductive Notice : Type :=
| Quiet
| Alert (message : string).

(** The four input fields after [parseInt] (pixel) and [parseFloat]
    (wavelength): a number, or [NaN] when the text does not parse. *)
Record CalibrationInputs : Type := {
  cal1X : num; cal1Wave : num;
  cal2X : num; cal2Wave : num
}.

Definition inputPoint1 (i : CalibrationInputs) : Point :=
  {| x := cal1X i; wavelength := cal1Wave i |}.

Definition inputPoint2 (i : CalibrationInputs) : Point :=
  {| x := cal2X i; wavelength := cal2Wave i |}.

(** The handler registered first ("Setup calibration button"). *)
Definition calibrateButtonHandler (st : State) (i : CalibrationInputs) : State :=
  updateCalibration st (inputPoint1 i) (inputPoint2 i).

(** The handler registered second ("Setup calibration handler"). *)
Definition calibrateHandler (st : State) (i : CalibrationInputs) : State * Notice :=
  if negb (isNaN (cal1X i)) && negb (isNaN (cal1Wave i)) &&
     negb (isNaN (cal2X i)) && negb (isNaN (cal2Wave i))
  then (updateCalibration st (inputPoint1 i) (inputPoint2 i), Quiet)
  else (st, Alert "Please enter valid numbers for both calibration points").

(** Some input field did not parse. *)
Definition anyNaN (i : CalibrationInputs) : bool :=
  isNaN (cal1X i) || isNaN (cal1Wave i) || isNaN (cal2X i) || isNaN (cal2Wave i).

Definition rejectionMessage : string :=
  "Please enter valid numbers for both calibration points".

(** A click runs the listeners in registration order. *)
Definition calibrateClick (st : State) (i : CalibrationInputs) : State * Notice :=
  calibrateHandler (calibrateButtonHandler st i) i.

End Main.

(* ------------------------------------------------------------------ *)
(** ** js/imageProcessor.js *)

Module ImageProcessor.

Open Scope num_scope.

(** [data[i]] on the byte array of an [ImageData]: a byte, or [undefined]
    (which arithmetic turns into [NaN]) outside the array. *)
Definition byteAt (bytes : list Z) (i : Z) : num :=
  if (i <? 0)%Z then NaN
  else match nth_error bytes (Z.to_nat i) with
       | Some b => ofZ b
       | None => NaN
       end.

(** The inner loop: the sum of the green bytes of column [x0]. *)
Definition columnSum (bytes : list Z) (width height : Z) (x0 : Z) : num :=
  fold_left
    (fun sum y => sum + byteAt bytes ((Z.of_nat y * width + x0) * 4 + 1))
    (seq 0 (Z.to_nat height)) (Fin 0).

Record Spectrum : Type := { spectrum : list num; rawSpectrum : list num }.

(** [processFrame(sourceCtx)].  The four region inputs are the parsed
    integers; [bytes] is the [data] of the [ImageData] that
    [sourceCtx.getImageData(startX, startY, stopX - startX, stopY - startY)]
    returned.  [None] stands for the [RangeError] of [new Array(width)] at a
    negative width.  The result is what is passed to
    [spectragraph.updateData]. *)
Definition processFrame (startX stopX startY stopY : Z) (bytes : list Z)
    : option Spectrum :=
  let width := (stopX - startX)%Z in
  let height := (stopY - startY)%Z in
  if (width <? 0)%Z then None
  else
    let column x0 :=
      columnSum bytes width height (Z.of_nat x0) / ofZ (height * 255) in
    let values := map column (seq 0 (Z.to_nat width)) in
    Some {| spectrum := values; rawSpectrum := values |}.

End ImageProcessor.

(* ------------------------------------------------------------------ *)
(** ** The ImageProcessor class with the quantum-efficiency hook
       (src/unnamed/part_005) *)

Module QEImageProcessor.

Import Spectragraph.
Open Scope num_scope.

(** Modelled from the spec: the shape of the profile data held in
    [this.qeData].  js/qe_calibration.js, which index.html loads, is not among
    the sources; the class only tests the field for truthiness.  A profile is
    an ordered sequence of (wavelength, efficiency) control points. *)
Definition QEData : Type := list (Q * Q).

Record Region : Type := { startX : Z; stopX : Z; startY : Z; stopY : Z }.

Record ImageData : Type := {
  img_width : nat;
  img_height : nat;
  img_data : list Z
}.

Record Processor : Type := {
  qeProfile : string;
  qeData : option QEData;
  region : Region
}.

Definition calculateWavelengths (c : Calibration) : list num :=
  map (fun pixel =>
         wavelength (point1 c)
         + (ofZ (Z.of_nat pixel) - x (point1 c)) * wavelengthPerPixel c)
      (seq 0 1920).

(** [getQECorrection(wavelength)]; the argument is [undefined] when the
    column lies outside the 1920 computed wavelengths. *)
Definition getQECorrection (wavelength : option num) : num := Fin 1.

(** [wavelengths[i]] for an integer index. *)
Definition wavelengthAt (ws : list num) (i : Z) : option num :=
  if (i <? 0)%Z then None else nth_error ws (Z.to_nat i).

(** The inner loop over the rows: the running [sum] and [count]. *)
Definition columnAcc (img : ImageData) (x0 : nat) : num * nat :=
  fold_left
    (fun (acc : num * nat) y =>
       let idx := ((Z.of_nat y * Z.of_nat (img_width img) + Z.of_nat x0) * 4)%Z in
       (fst acc + ImageProcessor.byteAt (img_data img) (idx + 1) / 255,
        S (snd acc)))
    (seq 0 (img_height img)) (Fin 0, O).

Definition avgIntensity (img : ImageData) (x0 : nat) : num :=
  let (sum, count) := columnAcc img x0 in
  if (0 <? count)%nat then sum / ofZ (Z.of_nat count) else Fin 0.

Record SpectralPoint : Type := {
  sp_wavelength : option num;
  sp_intensity : num;
  sp_rawIntensity : num
}.

(** [processImageData(imageData)] with a spectragraph attached: the list
    handed to [spectragraph.updateSpectralData]. *)
Definition processImageData (p : Processor) (c : Calibration) (img : ImageData)
    : list SpectralPoint :=
  let wavelengths := calculateWavelengths c in
  map (fun x0 =>
         let avg := avgIntensity img x0 in
         let w := wavelengthAt wavelengths (Z.of_nat x0 + startX (region p)) in
         let corrected :=
           if negb (String.eqb (qeProfile p) "none") &&
              match qeData p with Some _ => true | None => false end
           then avg * getQECorrection w
           else avg in
         {| sp_wavelength := w; sp_intensity := corrected; sp_rawIntensity := avg |})
      (seq 0 (img_width img)).

(** *** The correction as the specification words it *)

(** Piecewise-linear interpolation between the two control points that
    bracket [w], the nearest endpoint outside the profile's domain. *)
Fixpoint interpolate_spec (points : list (Q * Q)) (w : Q) : Q :=
  match points with
  | [] => 1
  | (w0, e0) :: rest =>
      if Qle_bool w w0 then e0
      else match rest with
           | [] => e0
           | (w1, e1) :: _ =>
               if Qle_bool w w1
               then e0 + (e1 - e0) * ((w - w0) / (w1 - w0))
               else interpolate_spec rest w
           end
  end%Q.

(** [efficiency(wavelength)] of the specification; the None profile is
    [None]. *)
Definition efficiency_spec (profile : option QEData) (w : Q) : Q :=
  match profile with
  | None => 1%Q
  | Some points => interpolate_spec points w
  end.

(** [correct(wavelength, rawIntensity)] of the specification. *)
Definition correct_spec (profile : option QEData) (w r : Q) : Q :=
  (r * efficiency_spec profile w)%Q.

(** A processor with the generated profile selected and profile data
    present, looking at the column of pixel 1623, and a frame of one white
    pixel. *)
Definition profiledProcessor : Processor :=
  {| qeProfile := "generated";
     qeData := Some [(400, 0.4); (410, 0.6)]%Q;
     region := {| startX := 1623; stopX := 1624; startY := 0; stopY := 1 |} |}.

Definition whitePixel : ImageData :=
  {| img_width := 1; img_height := 1; img_data := [255; 255; 255; 255]%Z |}.

(** A frame of three columns and 50 rows in which every byte is 128. *)
Definition grayStrip : ImageData :=
  {| img_width := 3; img_height := 50; img_data := repeat 128%Z 600 |}.

End QEImageProcessor.

(* ------------------------------------------------------------------ *)
(** ** The recorder (class RecordingManager) *)

Module RecordingManager.

Import Spectragraph.
Open Scope num_scope.

Record RecordedFrame : Type := {
  timestamp : num;
  wavelengths : list num;
  rawIntensities : list num;
  correctedIntensities : list num
}.

(** The fields of the class.  [intervalId] is [Some period] while the timer
    set by [setInterval(collectSpectralData, period)] runs; [mediaRecorder]
    is [true] once a MediaRecorder was created and started. *)
Record Recorder : Type := {
  mediaRecorder : bool;
  recordedChunks : nat;
  spectralData : list RecordedFrame;
  isRecording : bool;
  recordInterval : num;
  intervalId : option num;
  startTime : option num
}.

(** The state built by the constructor. *)
Definition newRecorder : Recorder :=
  {| mediaRecorder := false; recordedChunks := 0; spectralData := [];
     isRecording := false; recordInterval := 1000;
     intervalId := None; startTime := None |}.

(** What the recorder reads from its collaborators. *)
Record Env : Type := {
  graph : State;                 (* the spectragraph singleton *)
  recordRawVideo : bool;         (* the checkbox *)
  stream : bool;                 (* [cameraManager.stream] is set *)
  webmSupported : bool;          (* [MediaRecorder.isTypeSupported(...)] *)
  recorderStarts : bool;         (* [new MediaRecorder] and [start] succeed *)
  now : num                      (* [Date.now()] *)
}.

(** The two kinds of value met by the test on the array length. *)
Inductive Value : Type :=
| VBool (b : bool)
| VNum (a : num).

(** [!v]: zero and [NaN] are the falsy numbers. *)
Definition js_not (v : Value) : Value :=
  match v with
  | VBool b => VBool (negb b)
  | VNum a => VBool (eqb a 0 || isNaN a)
  end.

(** [v === w]: values of different types are never strictly equal. *)
Definition strict_eq (v w : Value) : bool :=
  match v, w with
  | VBool a, VBool b => Bool.eqb a b
  | VNum a, VNum b => eqb a b
  | _, _ => false
  end.

(** [!data.raw.length === 0]: the negation binds tighter than [===]. *)
Definition not_length_is_zero (n : nat) : bool :=
  strict_eq (js_not (VNum (ofZ (Z.of_nat n)))) (VNum 0).

(** A time stamp in arithmetic: [null] converts to [0]. *)
Definition timeToNumber (t : option num) : num :=
  match t with Some a => a | None => Fin 0 end.

(** [checkRecordingPossible()]: [inl message] when it throws.  The middle
    test, [!data.raw], is never true: [getCurrentData] always returns an
    array there. *)
Definition checkRecordingPossible (e : Env) : string + unit :=
  match getCurrentData (graph e) with
  | None =>
      inl "No spectral data available. Please ensure the spectrometer is running."%string
  | Some d =>
      if not_length_is_zero (length (raw d))
      then inl "No spectral data available. Please ensure the spectrometer is running."%string
      else if recordRawVideo e then
        if negb (stream e)
        then inl "No camera stream available for video recording."%string
        else if negb (webmSupported e)
        then inl "Your browser does not support WebM video recording."%string
        else inr tt
      else inr tt
  end.

(** [startRecording()]: the new state, the returned boolean and the alert. *)
Definition startRecording (r : Recorder) (e : Env)
    : Recorder * bool * option string :=
  match checkRecordingPossible e with
  | inl message => (r, false, Some message)
  | inr _ =>
      let r1 :=
        {| mediaRecorder := mediaRecorder r; recordedChunks := 0;
           spectralData := []; isRecording := isRecording r;
           recordInterval := recordInterval r; intervalId := intervalId r;
           startTime := Some (now e) |} in
      if recordRawVideo e && negb (recorderStarts e)
      then (r1, false, Some "Failed to start video recording: "%string)
      else
        (* the timer is set, then the flag *)
        ({| mediaRecorder := if recordRawVideo e then true else mediaRecorder r1;
            recordedChunks := recordedChunks r1;
            spectralData := spectralData r1; isRecording := true;
            recordInterval := recordInterval r1;
            intervalId := Some (recordInterval r1);
            startTime := startTime r1 |}, true, None)
  end.

(** The wavelength written at index [i] of a frame of [n] points. *)
Definition gridWavelength (range : Range) (n : nat) (i : nat) : num :=
  let wavelengthStep := (end_ range - start range) / (ofZ (Z.of_nat n) - 1) in
  start range + ofZ (Z.of_nat i) * wavelengthStep.

(** [collectSpectralData()], one tick of the sampling timer. *)
Definition collectSpectralData (r : Recorder) (e : Env) : Recorder :=
  let timestamp0 := now e - timeToNumber (startTime r) in
  let range := calculateSensorRange (calibration (graph e)) in
  match getCurrentData (graph e) with
  | None => r
  | Some d =>
      let dataLength := length (raw d) in
      let currentData :=
        {| timestamp := timestamp0;
           wavelengths :=
             map (fun i => toFixed 2 (gridWavelength range dataLength i))
                 (seq 0 dataLength);
           rawIntensities := map (toFixed 6) (raw d);
           correctedIntensities := map (toFixed 6) (corrected d) |} in
      if (0 <? length (wavelengths currentData))%nat
      then {| mediaRecorder := mediaRecorder r;
              recordedChunks := recordedChunks r;
              spectralData := spectralData r ++ [currentData];
              isRecording := isRecording r;
              recordInterval := recordInterval r;
              intervalId := intervalId r;
              startTime := startTime r |}
      else r
  end.

(** A spectragraph holding two empty arrays, as after [updateData([], [])],
    and a recorder environment around it with raw video not requested. *)
Definition emptyGraph : State := set_data (constructor 960) (Some []) (Some []).

Definition emptyFrameEnv : Env :=
  {| graph := emptyGraph; recordRawVideo := false; stream := false;
     webmSupported := false; recorderStarts := false; now := 0 |}.


End RecordingManager.

(* ------------------------------------------------------------------ *)
(** ** Arithmetic that overflows

    The numbers of the program are IEEE 754 doubles.  A sum, difference,
    product or quotient whose exact value reaches [2^1024 - 2^970] in
    magnitude is rounded to an infinity; this module adds that to the four
    operations (the rounding of results that stay in range is still left
    out) and repeats, over them, the functions that compute the sensor range,
    a zoom step and the recorder's wavelength axis. *)

Module Overflow.

Import Spectragraph RecordingManager.
Open Scope Q_scope.

(** The least magnitude that rounds to an infinity. *)
Definition overflowBound : Q := inject_Z (2 ^ 1024 - 2 ^ 970).

Definition fit (a : num) : num :=
  match a with
  | Fin q =>
      if Qle_bool overflowBound q then PInf
      else if Qle_bool q (- overflowBound) then NInf
      else Fin q
  | _ => a
  end.

Definition add (a b : num) : num := fit (JSNum.add a b).
Definition sub (a b : num) : num := fit (JSNum.sub a b).
Definition mul (a b : num) : num := fit (JSNum.mul a b).
Definition div (a b : num) : num := fit (JSNum.div a b).

Definition wavelengthPerPixel (c : Calibration) : num :=
  div (sub (wavelength (point2 c)) (wavelength (point1 c)))
      (sub (x (point2 c)) (x (point1 c))).

Definition startWavelength (c : Calibration) : num :=
  sub (wavelength (point1 c)) (mul (x (point1 c)) (wavelengthPerPixel c)).

Definition calculateSensorRange (c : Calibration) : Range :=
  let startW := startWavelength c in
  let endW := add startW (mul (Fin 1920) (wavelengthPerPixel c)) in
  let s := min startW endW in
  let e := max startW endW in
  {| start := div (round (mul s (Fin 10))) (Fin 10);
     end_ := div (round (mul e (Fin 10))) (Fin 10) |}.

Definition xToWavelength (st : State) (x0 : num) : num :=
  let range := sub (end_ (displayRange st)) (start (displayRange st)) in
  add (start (displayRange st)) (mul (div x0 (canvas_width st)) range).

Definition handleZoom (st : State) (mouseX deltaY : num) : State :=
  let sensorRange := calculateSensorRange (calibration st) in
  let zoomIn := ltb deltaY (Fin 0) in
  let mouseWavelength := xToWavelength st mouseX in
  let currentRange := sub (end_ (displayRange st)) (start (displayRange st)) in
  let newRange := if zoomIn then div currentRange (zoomFactor st)
                  else mul currentRange (zoomFactor st) in
  let mouseRatio := div (sub mouseWavelength (start (displayRange st))) currentRange in
  let newStart0 := sub mouseWavelength (mul mouseRatio newRange) in
  let newEnd0 := add newStart0 newRange in
  let newStart := max (start sensorRange) (min newStart0 (sub (end_ sensorRange) (Fin 50))) in
  let newEnd := min (end_ sensorRange) (max newEnd0 (add (start sensorRange) (Fin 50))) in
  if geb (sub newEnd newStart) (Fin 50)
  then set_displayRange st {| start := newStart; end_ := newEnd |}
  else st.

Definition gridWavelength (range : Range) (n : nat) (i : nat) : num :=
  let wavelengthStep :=
    div (sub (end_ range) (start range)) (sub (ofZ (Z.of_nat n)) (Fin 1)) in
  add (start range) (mul (ofZ (Z.of_nat i)) wavelengthStep).

Definition collectSpectralData (r : Recorder) (e : Env) : Recorder :=
  let timestamp0 := sub (now e) (timeToNumber (startTime r)) in
  let range := calculateSensorRange (calibration (graph e)) in
  match getCurrentData (graph e) with
  | None => r
  | Some d =>
      let dataLength := length (raw d) in
      let currentData :=
        {| timestamp := timestamp0;
           wavelengths :=
             map (fun i => toFixed 2 (gridWavelength range dataLength i))
                 (seq 0 dataLength);
           rawIntensities := map (toFixed 6) (raw d);
           correctedIntensities := map (toFixed 6) (corrected d) |} in
      if (0 <? length (wavelengths currentData))%nat
      then {| mediaRecorder := mediaRecorder r;
              recordedChunks := recordedChunks r;
              spectralData := spectralData r ++ [currentData];
              isRecording := isRecording r;
              recordInterval := recordInterval r;
              intervalId := intervalId r;
              startTime := startTime r |}
      else r
  end.

(** A calibration through pixels 0 and 1 whose wavelengths, [1e308] and
    [-1e308], are finite and whose slope is not. *)
Definition steepCalibration : Calibration :=
  calibrationOf 0 (inject_Z (10 ^ 308)) 1 (- inject_Z (10 ^ 308)).


End Overflow.

(* ================================================================== *)
(** * Properties *)

(* ------------------------------------------------------------------ *)
(** ** Numbers *)

Section NumFacts.

Open Scope Q_scope.

Lemma ltb_Fin (p q : Q) : ltb (Fin p) (Fin q) = true <-> p < q.
Proof.
  unfold ltb, cmp. rewrite Qlt_alt.
  destruct (p ?= q); split; congruence.
Qed.

Lemma leb_Fin (p q : Q) : leb (Fin p) (Fin q) = true <-> p <= q.
Proof.
  unfold leb, cmp. rewrite Qle_alt.
  destruct (p ?= q); split; try congruence; intros H; exfalso; now apply H.
Qed.

Lemma geb_Fin (p q : Q) : geb (Fin p) (Fin q) = true <-> q <= p.
Proof. apply leb_Fin. Qed.

Lemma gtb_Fin (p q : Q) : gtb (Fin p) (Fin q) = true <-> q < p.
Proof. apply ltb_Fin. Qed.

Lemma ltb_Fin_false (p q : Q) : ltb (Fin p) (Fin q) = false <-> q <= p.
Proof.
  rewrite <- not_true_iff_false, ltb_Fin. split; intros H.
  - now apply Qnot_lt_le.
  - now apply Qle_not_lt.
Qed.

Lemma div_Fin (p q : Q) : ~ q == 0 -> div (Fin p) (Fin q) = Fin (p / q).
Proof.
  intros H. unfold div.
  destruct (Qeq_bool q 0) eqn:E; [ | reflexivity ].
  apply Qeq_bool_eq in E. contradiction.
Qed.

(** [Math.min] and [Math.max] of two finite numbers. *)
Lemma min_Fin (p q : Q) :
  exists m, min (Fin p) (Fin q) = Fin m /\ m <= p /\ m <= q /\ (m = p \/ m = q).
Proof.
  unfold min, cmp. destruct (Qcompare_spec p q) as [E | L | G].
  - exists p. repeat split; auto; lra.
  - exists p. repeat split; auto; lra.
  - exists q. repeat split; auto; lra.
Qed.

Lemma max_Fin (p q : Q) :
  exists m, max (Fin p) (Fin q) = Fin m /\ p <= m /\ q <= m /\ (m = p \/ m = q).
Proof.
  unfold max, cmp. destruct (Qcompare_spec p q) as [E | L | G].
  - exists p. repeat split; auto; lra.
  - exists q. repeat split; auto; lra.
  - exists p. repeat split; auto; lra.
Qed.

Lemma min_Fin_l (p q : Q) :
  p <= q -> exists m, min (Fin p) (Fin q) = Fin m /\ m == p.
Proof.
  intros H. destruct (min_Fin p q) as (m & E & H1 & H2 & D).
  exists m. split; [ exact E | ]. destruct D; subst; lra.
Qed.

Lemma min_Fin_r (p q : Q) :
  q <= p -> exists m, min (Fin p) (Fin q) = Fin m /\ m == q.
Proof.
  intros H. destruct (min_Fin p q) as (m & E & H1 & H2 & D).
  exists m. split; [ exact E | ]. destruct D; subst; lra.
Qed.

Lemma max_Fin_l (p q : Q) :
  q <= p -> exists m, max (Fin p) (Fin q) = Fin m /\ m == p.
Proof.
  intros H. destruct (max_Fin p q) as (m & E & H1 & H2 & D).
  exists m. split; [ exact E | ]. destruct D; subst; lra.
Qed.

Lemma max_Fin_r (p q : Q) :
  p <= q -> exists m, max (Fin p) (Fin q) = Fin m /\ m == q.
Proof.
  intros H. destruct (max_Fin p q) as (m & E & H1 & H2 & D).
  exists m. split; [ exact E | ]. destruct D; subst; lra.
Qed.

(** Rounding to a fixed number of decimals keeps the order. *)
Lemma round_scaled_le (m n : Q) :
  m <= n ->
  inject_Z (Qfloor (m * 10 + (1 # 2))) / 10 <= inject_Z (Qfloor (n * 10 + (1 # 2))) / 10.
Proof.
  intros H.
  assert (F : (Qfloor (m * 10 + (1 # 2)) <= Qfloor (n * 10 + (1 # 2)))%Z)
    by (apply Qfloor_resp_le; lra).
  rewrite Zle_Qle in F.
  unfold Qdiv. apply Qmult_le_compat_r; [ exact F | discriminate ].
Qed.

End NumFacts.

(* ------------------------------------------------------------------ *)
(** ** Results that stay in range *)

Section NoOverflow.

Open Scope Q_scope.

(** A result below 10^20 in magnitude is far from overflowing. *)
Lemma fit_Fin (q : Q) : Qabs q <= 100000000000000000000 -> Overflow.fit (Fin q) = Fin q.
Proof.
  intros H. apply Qabs_Qle_condition in H. destruct H as [L U].
  assert (B : 100000000000000000000 < Overflow.overflowBound) by (vm_compute; reflexivity).
  unfold Overflow.fit. set (M := Overflow.overflowBound) in *. clearbody M.
  destruct (Qle_bool M q) eqn:E1.
  - apply Qle_bool_iff in E1. lra.
  - destruct (Qle_bool q (- M)) eqn:E2; [ | reflexivity ].
    apply Qle_bool_iff in E2. lra.
Qed.

Lemma add_fit (p q : Q) :
  Qabs (p + q) <= 100000000000000000000 -> Overflow.add (Fin p) (Fin q) = add (Fin p) (Fin q).
Proof. intros H. unfold Overflow.add. cbn [add]. now apply fit_Fin. Qed.

Lemma sub_fit (p q : Q) :
  Qabs (p + - q) <= 100000000000000000000 -> Overflow.sub (Fin p) (Fin q) = sub (Fin p) (Fin q).
Proof. intros H. unfold Overflow.sub, sub. cbn [neg add]. now apply fit_Fin. Qed.

Lemma mul_fit (p q : Q) :
  Qabs (p * q) <= 100000000000000000000 -> Overflow.mul (Fin p) (Fin q) = mul (Fin p) (Fin q).
Proof. intros H. unfold Overflow.mul. cbn [mul]. now apply fit_Fin. Qed.

Lemma div_fit (p q : Q) :
  ~ q == 0 -> Qabs (p / q) <= 100000000000000000000 -> Overflow.div (Fin p) (Fin q) = div (Fin p) (Fin q).
Proof.
  intros N H. unfold Overflow.div. rewrite div_Fin by exact N. now apply fit_Fin.
Qed.

(** Magnitudes of sums, products, quotients and roundings. *)
Lemma abs_add (a b A B : Q) : Qabs a <= A -> Qabs b <= B -> Qabs (a + b) <= A + B.
Proof. intros Ha Hb. pose proof (Qabs_triangle a b). lra. Qed.

Lemma abs_sub (a b A B : Q) : Qabs a <= A -> Qabs b <= B -> Qabs (a + - b) <= A + B.
Proof.
  intros Ha Hb. pose proof (Qabs_triangle a (- b)) as T.
  rewrite Qabs_opp in T. lra.
Qed.

Lemma abs_mul (a b A B : Q) : Qabs a <= A -> Qabs b <= B -> Qabs (a * b) <= A * B.
Proof.
  intros Ha Hb. rewrite Qabs_Qmult.
  apply Qmult_le_compat_nonneg; split; auto using Qabs_nonneg.
Qed.

Lemma abs_div (a b A B : Q) :
  Qabs a <= A -> 0 < B -> B <= Qabs b -> Qabs (a / b) <= A / B.
Proof.
  intros Ha HB Hb. unfold Qdiv at 1. rewrite Qabs_Qmult, Qabs_Qinv.
  pose proof (Qabs_nonneg a) as Na.
  assert (Pb : 0 < Qabs b) by lra.
  assert (I : / Qabs b <= / B).
  { apply Qle_shift_inv_l; [ exact HB | ].
    setoid_replace (/ Qabs b * B) with (B / Qabs b) by (unfold Qdiv; ring).
    apply Qle_shift_div_r; lra. }
  assert (0 <= / Qabs b) by (apply Qinv_le_0_compat; lra).
  unfold Qdiv. apply Qmult_le_compat_nonneg; split; auto.
Qed.

Lemma abs_round (a A : Q) :
  Qabs a <= A -> Qabs (inject_Z (Qfloor (a + (1 # 2)))) <= A + 1.
Proof.
  intros H. apply Qabs_Qle_condition in H. apply Qabs_Qle_condition.
  pose proof (Qfloor_le (a + (1 # 2))) as L.
  pose proof (Qlt_floor (a + (1 # 2))) as U.
  rewrite inject_Z_plus in U. change (inject_Z 1) with 1 in U. split; lra.
Qed.

Lemma abs_le (a A B : Q) : Qabs a <= A -> A <= B -> Qabs a <= B.
Proof. intros; lra. Qed.

End NoOverflow.

(* ------------------------------------------------------------------ *)
(** ** The sensor range *)

Section SensorRange.

Import Spectragraph.
Open Scope Q_scope.

(** Slope and intercept of a calibration through two distinct pixels. *)
Lemma wavelengthPerPixel_finite (x1 w1 x2 w2 : Q) :
  ~ x1 == x2 ->
  wavelengthPerPixel (calibrationOf x1 w1 x2 w2) = Fin ((w2 + - w1) / (x2 + - x1)).
Proof.
  intros H. unfold wavelengthPerPixel, calibrationOf; simpl.
  apply div_Fin. intros E. apply H. lra.
Qed.

Lemma startWavelength_finite (x1 w1 x2 w2 : Q) :
  ~ x1 == x2 ->
  startWavelength (calibrationOf x1 w1 x2 w2)
  = Fin (w1 + - (x1 * ((w2 + - w1) / (x2 + - x1)))).
Proof.
  intros H. unfold startWavelength.
  rewrite wavelengthPerPixel_finite by exact H. reflexivity.
Qed.


(** The wavelengths at the two sensor edges and the bounds computed from
    them: the smaller one and the larger one, each rounded to one decimal. *)
Lemma calculateSensorRange_edges (x1 w1 x2 w2 : Q) :
  ~ x1 == x2 ->
  let slope := (w2 - w1) / (x2 - x1) in
  let edge0 := w1 - x1 * slope in
  let edge1920 := edge0 + 1920 * slope in
  exists lo hi,
    calculateSensorRange (calibrationOf x1 w1 x2 w2)
    = {| start := Fin (inject_Z (Qfloor (lo * 10 + (1 # 2))) / 10);
         end_ := Fin (inject_Z (Qfloor (hi * 10 + (1 # 2))) / 10) |} /\
    (lo == edge0 /\ hi == edge1920 \/ lo == edge1920 /\ hi == edge0) /\ lo <= hi.
Proof.
  intros H slope edge0 edge1920. unfold calculateSensorRange.
  rewrite startWavelength_finite, wavelengthPerPixel_finite by exact H.
  set (a := w1 + - (x1 * ((w2 + - w1) / (x2 + - x1)))).
  set (k := (w2 + - w1) / (x2 + - x1)).
  change (Fin a + Fin 1920 * Fin k)%num with (Fin (a + 1920 * k)).
  assert (Ea : a == edge0) by reflexivity.
  assert (Eb : a + 1920 * k == edge1920) by reflexivity.
  destruct (min_Fin a (a + 1920 * k)) as (m & -> & Hm1 & Hm2 & Dm).
  destruct (max_Fin a (a + 1920 * k)) as (n & -> & Hn1 & Hn2 & Dn).
  change (round (Fin m * Fin 10))%num with (Fin (inject_Z (Qfloor (m * 10 + (1 # 2))))).
  change (round (Fin n * Fin 10))%num with (Fin (inject_Z (Qfloor (n * 10 + (1 # 2))))).
  rewrite !div_Fin by discriminate.
  exists m, n. split; [ reflexivity | ]. split; [ | lra ].
  destruct Dm as [-> | ->], Dn as [-> | ->].
  - left. split; lra.
  - left. split; [ lra | reflexivity ].
  - right. split; [ reflexivity | lra ].
  - right. split; lra.
Qed.

(** Magnitudes met while the sensor range is computed. *)
Lemma sensorRange_magnitudes (x1 w1 x2 w2 : Q) :
  Qabs x1 <= 1000000 -> Qabs w1 <= 1000000 ->
  Qabs x2 <= 1000000 -> Qabs w2 <= 1000000 ->
  1 / 1000000 <= Qabs (x2 - x1) ->
  let k := (w2 + - w1) / (x2 + - x1) in
  let a := w1 + - (x1 * k) in
  ~ x1 == x2 /\
  Qabs (w2 + - w1) <= 2000000 /\
  Qabs (x2 + - x1) <= 2000000 /\
  Qabs k <= 2000000000000 /\
  Qabs (x1 * k) <= 2000000000000000000 /\
  Qabs a <= 3000000000000000000 /\
  Qabs (1920 * k) <= 4000000000000000 /\
  Qabs (a + 1920 * k) <= 4000000000000000000.
Proof.
  intros Bx1 Bw1 Bx2 Bw2 Far k a.
  assert (H : ~ x1 == x2).
  { intros E. setoid_replace (x2 - x1) with 0 in Far by lra.
    change (Qabs 0) with 0 in Far.
    assert (0 < 1 / 1000000) by reflexivity. lra. }
  unfold Qminus in Far.
  assert (HN : Qabs (w2 + - w1) <= 2000000)
    by (eapply abs_le; [ apply abs_sub; eassumption | discriminate ]).
  assert (HD : Qabs (x2 + - x1) <= 2000000)
    by (eapply abs_le; [ apply abs_sub; eassumption | discriminate ]).
  assert (HK : Qabs k <= 2000000000000).
  { eapply abs_le; [ apply abs_div; [ exact HN | | exact Far ]; reflexivity | ].
    discriminate. }
  assert (HP : Qabs (x1 * k) <= 2000000000000000000)
    by (eapply abs_le; [ apply abs_mul; eassumption | discriminate ]).
  assert (HA : Qabs a <= 3000000000000000000)
    by (eapply abs_le; [ apply abs_sub; eassumption | discriminate ]).
  assert (HM : Qabs (1920 * k) <= 4000000000000000).
  { eapply abs_le; [ apply abs_mul; [ apply Qle_refl | exact HK ] | discriminate ]. }
  assert (HB : Qabs (a + 1920 * k) <= 4000000000000000000)
    by (eapply abs_le; [ apply abs_add; eassumption | discriminate ]).
  repeat split; assumption.
Qed.

(** One bound of the range: scaling by ten, rounding, scaling back. *)
Lemma round_tenth_fit (m : Q) :
  Qabs m <= 4000000000000000000 ->
  Overflow.div (round (Overflow.mul (Fin m) (Fin 10))) (Fin 10)
  = div (round (mul (Fin m) (Fin 10))) (Fin 10)
  /\ Qabs (inject_Z (Qfloor (m * 10 + (1 # 2))) / 10) <= 5000000000000000000.
Proof.
  intros H.
  assert (H10 : Qabs (m * 10) <= 40000000000000000000)
    by (eapply abs_le; [ apply abs_mul; [ exact H | apply Qle_refl ] | discriminate ]).
  assert (HR : Qabs (inject_Z (Qfloor (m * 10 + (1 # 2)))) <= 40000000000000000001)
    by (eapply abs_le; [ apply abs_round; exact H10 | discriminate ]).
  assert (HQ : Qabs (inject_Z (Qfloor (m * 10 + (1 # 2))) / 10) <= 5000000000000000000).
  { eapply abs_le; [ apply abs_div with (B := 10); [ exact HR | reflexivity | discriminate ] | ].
    discriminate. }
  split; [ | exact HQ ].
  rewrite mul_fit by (eapply abs_le; [ exact H10 | discriminate ]).
  cbn [mul round].
  apply div_fit; [ discriminate | ].
  eapply abs_le; [ exact HQ | discriminate ].
Qed.

(** Inside the bounds nothing overflows while the sensor range is computed:
    the two computations agree, and the range stays below 5 * 10^18. *)
Lemma calculateSensorRange_no_overflow (x1 w1 x2 w2 : Q) :
  Qabs x1 <= 1000000 -> Qabs w1 <= 1000000 ->
  Qabs x2 <= 1000000 -> Qabs w2 <= 1000000 ->
  1 / 1000000 <= Qabs (x2 - x1) ->
  let c := calibrationOf x1 w1 x2 w2 in
  Overflow.wavelengthPerPixel c = wavelengthPerPixel c /\
  Overflow.calculateSensorRange c = calculateSensorRange c /\
  exists s t,
    calculateSensorRange c = {| start := Fin s; end_ := Fin t |} /\
    Qabs s <= 5000000000000000000 /\ Qabs t <= 5000000000000000000.
Proof.
  intros Bx1 Bw1 Bx2 Bw2 Far c.
  destruct (@sensorRange_magnitudes x1 w1 x2 w2 Bx1 Bw1 Bx2 Bw2 Far)
    as (H & HN & HD & HK & HP & HA & HM & HB).
  cbv zeta in HK, HP, HA, HM, HB.
  assert (HD0 : ~ x2 + - x1 == 0) by (intros E; apply H; lra).
  assert (K : Overflow.wavelengthPerPixel c = wavelengthPerPixel c).
  { unfold Overflow.wavelengthPerPixel, wavelengthPerPixel, c, calibrationOf.
    cbn [point1 point2 x wavelength].
    rewrite !sub_fit by (eapply abs_le; [ eassumption | discriminate ]).
    unfold sub; cbn [neg add].
    apply div_fit; [ exact HD0 | eapply abs_le; [ exact HK | discriminate ] ]. }
  assert (S : Overflow.startWavelength c = startWavelength c).
  { unfold Overflow.startWavelength, startWavelength. rewrite K.
    unfold c. rewrite wavelengthPerPixel_finite by exact H.
    unfold calibrationOf; cbn [point1 point2 x wavelength].
    rewrite mul_fit by (eapply abs_le; [ exact HP | discriminate ]).
    cbn [mul].
    apply sub_fit. eapply abs_le; [ exact HA | discriminate ]. }
  split; [ exact K | ].
  unfold Overflow.calculateSensorRange, calculateSensorRange.
  rewrite S, K. unfold c.
  rewrite startWavelength_finite, wavelengthPerPixel_finite by exact H.
  set (k := (w2 + - w1) / (x2 + - x1)) in *.
  set (a := w1 + - (x1 * k)) in *.
  rewrite mul_fit by (eapply abs_le; [ exact HM | discriminate ]).
  cbn [mul].
  rewrite add_fit by (eapply abs_le; [ exact HB | discriminate ]).
  cbn [add]. cbv zeta.
  destruct (min_Fin a (a + 1920 * k)) as (m & -> & _ & _ & Dm).
  destruct (max_Fin a (a + 1920 * k)) as (n & -> & _ & _ & Dn).
  assert (Bm : Qabs m <= 4000000000000000000)
    by (destruct Dm as [-> | ->]; [ eapply abs_le; [ exact HA | discriminate ] | exact HB ]).
  assert (Bn : Qabs n <= 4000000000000000000)
    by (destruct Dn as [-> | ->]; [ eapply abs_le; [ exact HA | discriminate ] | exact HB ]).
  destruct (@round_tenth_fit m Bm) as [Em Rm].
  destruct (@round_tenth_fit n Bn) as [En Rn].
  split; [ now rewrite Em, En | ].
  cbn [mul round]. rewrite !div_Fin by discriminate.
  eexists _, _. split; [ reflexivity | ]. split; assumption.
Qed.

(** C2 (amended).  For every calibration through two pixels that are at
    least 10^-6 apart, with pixel positions and wavelengths of magnitude at
    most 10^6, whatever the sign of its slope: no step of
    [calculateSensorRange] overflows, the calibration line is evaluated at
    pixel 0 and at pixel 1920, the smaller of the two wavelengths is the
    start and the larger the end, each rounded to one decimal; both are
    finite and [start <= end]. *)
Theorem sensorRange_start_le_end (x1 w1 x2 w2 : Q) :
  Qabs x1 <= 1000000 -> Qabs w1 <= 1000000 ->
  Qabs x2 <= 1000000 -> Qabs w2 <= 1000000 ->
  1 / 1000000 <= Qabs (x2 - x1) ->
  let c := calibrationOf x1 w1 x2 w2 in
  let slope := (w2 - w1) / (x2 - x1) in
  let edge0 := w1 - x1 * slope in
  let edge1920 := edge0 + 1920 * slope in
  let r := Overflow.calculateSensorRange c in
  r = calculateSensorRange c /\
  isFinite (start r) = true /\ isFinite (end_ r) = true /\
  leb (start r) (end_ r) = true /\
  num_eq (Overflow.wavelengthPerPixel c) (Fin slope) /\
  exists lo hi,
    (lo == edge0 /\ hi == edge1920 \/ lo == edge1920 /\ hi == edge0) /\
    lo <= hi /\
    num_eq (start r) (Fin (inject_Z (Qfloor (lo * 10 + (1 # 2))) / 10)) /\
    num_eq (end_ r) (Fin (inject_Z (Qfloor (hi * 10 + (1 # 2))) / 10)).
Proof.
  intros Bx1 Bw1 Bx2 Bw2 Far c slope edge0 edge1920 r.
  destruct (@calculateSensorRange_no_overflow x1 w1 x2 w2 Bx1 Bw1 Bx2 Bw2 Far)
    as (K & R & _).
  destruct (@sensorRange_magnitudes x1 w1 x2 w2 Bx1 Bw1 Bx2 Bw2 Far) as (H & _).
  destruct (@calculateSensorRange_edges x1 w1 x2 w2 H) as (lo & hi & E & D & L).
  cbv zeta in D. fold slope in D. fold edge0 in D. fold edge1920 in D.
  fold c in K, R. fold r in R.
  split; [ exact R | ].
  rewrite R, K. unfold c. rewrite E. cbn [start end_ isFinite].
  split; [ reflexivity | ]. split; [ reflexivity | ].
  split; [ apply leb_Fin; now apply round_scaled_le | ].
  split.
  { rewrite wavelengthPerPixel_finite by exact H. cbn [num_eq]. reflexivity. }
  exists lo, hi. split; [ exact D | ]. split; [ exact L | ].
  split; cbn [num_eq]; reflexivity.
Qed.

(** The default calibration has a negative slope: the start of its range
    comes from pixel 1920, the end from pixel 0. *)
Lemma sensorRange_start_le_end_witness :
  ltb (wavelengthPerPixel (calibrationOf 1623 405.4 1238 611.6)) (Fin 0) = true /\
  let c := calibrationOf 1623 405.4 1238 611.6 in
  let slope := (611.6 - 405.4) / (1238 - 1623) in
  let edge0 := 405.4 - 1623 * slope in
  let edge1920 := edge0 + 1920 * slope in
  let r := Overflow.calculateSensorRange c in
  r = calculateSensorRange c /\
  isFinite (start r) = true /\ isFinite (end_ r) = true /\
  leb (start r) (end_ r) = true /\
  num_eq (Overflow.wavelengthPerPixel c) (Fin slope) /\
  exists lo hi,
    (lo == edge0 /\ hi == edge1920 \/ lo == edge1920 /\ hi == edge0) /\
    lo <= hi /\
    num_eq (start r) (Fin (inject_Z (Qfloor (lo * 10 + (1 # 2))) / 10)) /\
    num_eq (end_ r) (Fin (inject_Z (Qfloor (hi * 10 + (1 # 2))) / 10)).
Proof.
  split; [ reflexivity | ].
  apply (@sensorRange_start_le_end 1623 405.4 1238 611.6);
    vm_compute; discriminate.
Defined.

(** C2, the claim as stated fails on a calibration that is not degenerate:
    through the pixels 0 and 1 with the finite wavelengths 1e308 and -1e308
    the slope overflows to -Infinity, the wavelength at pixel 0 is
    [1e308 - 0 * -Infinity], not a number, and so are both bounds of the
    range: [start <= end] is false. *)
Lemma sensorRange_overflow_unordered :
  let c := Overflow.steepCalibration in
  let r := Overflow.calculateSensorRange c in
  eqb (x (point1 c)) (x (point2 c)) = false /\
  isFinite (wavelength (point1 c)) = true /\
  isFinite (wavelength (point2 c)) = true /\
  Overflow.wavelengthPerPixel c = NInf /\
  Overflow.startWavelength c = NaN /\
  r = {| start := NaN; end_ := NaN |} /\
  leb (start r) (end_ r) = false.
Proof.
  cbv zeta. repeat split; vm_compute; reflexivity.
Qed.

(** C3 (amended).  With the default calibration the slope is
    (611.6 - 405.4) / (1238 - 1623), about -0.5356; the calibration line is
    evaluated at pixel 0 (about 1274.65) and at pixel 1920 (about 246.33),
    and the range, min and max taken and rounded to one decimal, is
    {start: 246.3, end: 1274.7}. *)
Theorem default_sensorRange :
  let c := defaultCalibration in
  let r := calculateSensorRange c in
  num_eq (wavelengthPerPixel c) (Fin ((611.6 - 405.4) / (1238 - 1623))) /\
  ltb (Fin (-0.5356)) (wavelengthPerPixel c) = true /\
  ltb (wavelengthPerPixel c) (Fin (-0.5355)) = true /\
  ltb (Fin 1274.65) (startWavelength c) = true /\
  ltb (startWavelength c) (Fin 1274.66) = true /\
  ltb (Fin 246.33) (add (startWavelength c) (mul (Fin 1920) (wavelengthPerPixel c))) = true /\
  ltb (add (startWavelength c) (mul (Fin 1920) (wavelengthPerPixel c))) (Fin 246.34) = true /\
  num_eq (start r) (Fin 246.3) /\ num_eq (end_ r) (Fin 1274.7).
Proof.
  cbv zeta. repeat split; vm_compute; reflexivity.
Qed.

(** C3, the claim as stated fails: the range of the default calibration is
    not {175.9, 1254.5}; its start lies more than 70 nm above 175.9 and its
    end more than 20 nm above 1254.5. *)
Lemma default_sensorRange_not_as_claimed :
  let r := calculateSensorRange defaultCalibration in
  ~ (num_eq (start r) (Fin 175.9) /\ num_eq (end_ r) (Fin 1254.5)) /\
  gtb (sub (start r) (Fin 175.9)) (Fin 70) = true /\
  gtb (sub (end_ r) (Fin 1254.5)) (Fin 20) = true.
Proof.
  cbv zeta. split; [ | split; vm_compute; reflexivity ].
  intros [H _]. vm_compute in H. discriminate H.
Qed.

End SensorRange.

(* ------------------------------------------------------------------ *)
(** ** Clamping the display range *)

Section Clamp.

Import Spectragraph.
Open Scope Q_scope.

Lemma add_NaN_r (a : num) : add a NaN = NaN.
Proof. now destruct a. Qed.

Lemma sub_NaN_r (a : num) : sub a NaN = NaN.
Proof. now destruct a. Qed.

Lemma max_NaN_r (a : num) : max a NaN = NaN.
Proof. now destruct a. Qed.

Lemma min_NaN_r (a : num) : min a NaN = NaN.
Proof. now destruct a. Qed.

(** A difference that passes a [>=] test has two operands that are
    numbers. *)
Lemma geb_sub_operands (a b c : num) :
  geb (sub a b) c = true -> isNaN a = false /\ isNaN b = false.
Proof. destruct a, b, c; simpl; intros H; try discriminate H; now split. Qed.

Lemma leb_refl_Fin (p : Q) : leb (Fin p) (Fin p) = true.
Proof. apply leb_Fin. apply Qle_refl. Qed.

Lemma max_lower (a b : num) :
  isNaN (max a b) = false -> leb a (max a b) = true /\ leb b (max a b) = true.
Proof.
  destruct a as [p | | | ], b as [q | | | ];
    try (simpl; intros H; try discriminate H; split; reflexivity);
    try (simpl; intros _; split; [ reflexivity || apply leb_refl_Fin
                                 | reflexivity || apply leb_refl_Fin ]).
  intros _. destruct (max_Fin p q) as (m & -> & H1 & H2 & _).
  split; now apply leb_Fin.
Qed.

Lemma min_upper (a b : num) :
  isNaN (min a b) = false -> leb (min a b) a = true /\ leb (min a b) b = true.
Proof.
  destruct a as [p | | | ], b as [q | | | ];
    try (simpl; intros H; try discriminate H; split; reflexivity);
    try (simpl; intros _; split; [ reflexivity || apply leb_refl_Fin
                                 | reflexivity || apply leb_refl_Fin ]).
  intros _. destruct (min_Fin p q) as (m & -> & H1 & H2 & _).
  split; now apply leb_Fin.
Qed.

(** The clamp shared by [updateDisplayRange] and [handleZoom]: when the
    [>= 50] test passes, the new bounds lie inside the sensor range. *)
Lemma clamp_inside (s e a b : num) :
  let newStart := max s (min a (sub e (Fin 50))) in
  let newEnd := min e (max b (add s (Fin 50))) in
  geb (sub newEnd newStart) (Fin 50) = true ->
  leb s newStart = true /\ leb newEnd e = true.
Proof.
  intros newStart newEnd H.
  destruct (geb_sub_operands _ _ _ H) as [He Hs].
  split.
  - now apply max_lower.
  - now apply min_upper.
Qed.

(** A range inside another one is not wider. *)
Lemma span_inside (s e a b : num) :
  leb s a = true -> leb b e = true -> geb (sub b a) (Fin 50) = true ->
  leb (sub b a) (sub e s) = true.
Proof.
  destruct s as [s | | | ], e as [e | | | ], a as [a | | | ], b as [b | | | ];
    simpl; intros H1 H2 H3; try discriminate; try reflexivity.
  apply leb_Fin in H1, H2. apply leb_Fin. lra.
Qed.

End Clamp.

(* ------------------------------------------------------------------ *)
(** ** updateDisplayRange *)

Section UpdateDisplayRange.

Import Spectragraph.
Open Scope Q_scope.

Lemma updateDisplayRange_NaN_start (st : State) (b : num) :
  updateDisplayRange st NaN b = st.
Proof.
  unfold updateDisplayRange, parseFloat.
  change (min NaN ?u) with NaN. rewrite max_NaN_r, sub_NaN_r.
  now destruct (Fin 50).
Qed.

Lemma updateDisplayRange_NaN_end (st : State) (a : num) :
  updateDisplayRange st a NaN = st.
Proof.
  unfold updateDisplayRange, parseFloat.
  change (max NaN ?u) with NaN. rewrite min_NaN_r.
  change (sub NaN ?u) with NaN. reflexivity.
Qed.

(** C4 (amended).  [updateDisplayRange(start, end)] clamps [start] into
    [sensor.start, sensor.end - 50] and [end] into
    [sensor.start + 50, sensor.end]; it rejects, leaving the state unchanged,
    when a bound is [NaN] or the clamped span is below 50 nm, and otherwise
    stores the clamped bounds, which lie inside the sensor range.  With a
    sensor range of {200, 1200}, [updateDisplayRange(100, 150)] is accepted
    and sets the display range to {200, 250}. *)
Theorem updateDisplayRange_clamps (st : State) (a b : num) :
  let sensor := calculateSensorRange (calibration st) in
  let newStart := max (start sensor) (min a (sub (end_ sensor) (Fin 50))) in
  let newEnd := min (end_ sensor) (max b (add (start sensor) (Fin 50))) in
  (* a NaN bound is rejected *)
  updateDisplayRange st NaN b = st /\
  updateDisplayRange st a NaN = st /\
  (* a clamped span below 50 is rejected *)
  (geb (sub newEnd newStart) (Fin 50) = false -> updateDisplayRange st a b = st) /\
  (* otherwise the clamped bounds are stored, inside the sensor range *)
  (geb (sub newEnd newStart) (Fin 50) = true ->
     updateDisplayRange st a b = set_displayRange st {| start := newStart; end_ := newEnd |}
     /\ wellClamped (updateDisplayRange st a b)) /\
  (* the worked example *)
  range_eq (calculateSensorRange calibration_200_1200) {| start := Fin 200; end_ := Fin 1200 |} /\
  range_eq
    (displayRange (updateDisplayRange (set_calibration st calibration_200_1200) (Fin 100) (Fin 150)))
    {| start := Fin 200; end_ := Fin 250 |}.
Proof.
  intros sensor newStart newEnd.
  split; [ apply updateDisplayRange_NaN_start | ].
  split; [ apply updateDisplayRange_NaN_end | ].
  split; [ | split; [ | split ] ].
  - intros H. unfold updateDisplayRange, parseFloat.
    fold sensor. fold newStart. fold newEnd. now rewrite H.
  - intros H.
    assert (E : updateDisplayRange st a b
                = set_displayRange st {| start := newStart; end_ := newEnd |}).
    { unfold updateDisplayRange, parseFloat.
      fold sensor. fold newStart. fold newEnd. now rewrite H. }
    split; [ exact E | ].
    rewrite E. unfold wellClamped; simpl. fold sensor.
    destruct (clamp_inside _ _ _ _ H) as [H1 H2].
    repeat split; assumption.
  - split; vm_compute; reflexivity.
  - unfold updateDisplayRange, parseFloat, set_calibration. simpl calibration.
    split; vm_compute; reflexivity.
Qed.

Lemma updateDisplayRange_clamps_witness :
  let st := constructor (Fin 960) in
  updateDisplayRange st (Fin 400) (Fin 700)
  = set_displayRange st
      {| start := max (start (calculateSensorRange (calibration st)))
                      (min (Fin 400) (sub (end_ (calculateSensorRange (calibration st))) (Fin 50)));
         end_ := min (end_ (calculateSensorRange (calibration st)))
                     (max (Fin 700) (add (start (calculateSensorRange (calibration st))) (Fin 50))) |}
  /\ wellClamped (updateDisplayRange st (Fin 400) (Fin 700)).
Proof.
  intros st.
  destruct (updateDisplayRange_clamps st (Fin 400) (Fin 700)) as (_ & _ & _ & H & _).
  apply H. vm_compute. reflexivity.
Defined.

(** C4, the claim as stated fails: with a sensor range of {200, 1200},
    [updateDisplayRange(100, 150)] changes the display range, to
    {200, 250}. *)
Lemma updateDisplayRange_100_150_accepted :
  let st := set_calibration (constructor (Fin 960)) calibration_200_1200 in
  range_eq (calculateSensorRange (calibration st)) {| start := Fin 200; end_ := Fin 1200 |} /\
  updateDisplayRange st (Fin 100) (Fin 150) <> st /\
  range_eq (displayRange st) {| start := Fin 350; end_ := Fin 1200 |} /\
  range_eq (displayRange (updateDisplayRange st (Fin 100) (Fin 150)))
           {| start := Fin 200; end_ := Fin 250 |}.
Proof.
  cbv zeta. split; [ split; vm_compute; reflexivity | ].
  split; [ | split; split; vm_compute; reflexivity ].
  intros H. apply (f_equal (fun s => start (displayRange s))) in H.
  vm_compute in H. discriminate H.
Qed.

End UpdateDisplayRange.

(* ------------------------------------------------------------------ *)
(** ** handleZoom *)

Section Zoom.

Import Spectragraph.
Open Scope Q_scope.

Lemma handleZoom_calibration (st : State) (mouseX deltaY : num) :
  calibration (handleZoom st mouseX deltaY) = calibration st.
Proof.
  unfold handleZoom.
  match goal with |- context [if ?c then _ else _] => destruct c end; reflexivity.
Qed.

(** One wheel event is a no-op or leaves a clamped range. *)
Lemma handleZoom_step (st : State) (mouseX deltaY : num) :
  handleZoom st mouseX deltaY = st \/ wellClamped (handleZoom st mouseX deltaY).
Proof.
  unfold handleZoom.
  match goal with |- context [if ?c then _ else _] => destruct c eqn:H end;
    [ right | left; reflexivity ].
  unfold wellClamped; simpl.
  destruct (clamp_inside _ _ _ _ H) as [H1 H2].
  repeat split; assumption.
Qed.

Lemma handleZoom_wellClamped (st : State) (mouseX deltaY : num) :
  wellClamped st -> wellClamped (handleZoom st mouseX deltaY).
Proof.
  intros W. destruct (handleZoom_step st mouseX deltaY) as [-> | H]; assumption.
Qed.

Lemma handleZooms_wellClamped (ws : list Wheel) :
  forall st, wellClamped st -> wellClamped (handleZooms st ws).
Proof.
  induction ws as [ | w ws IH]; intros st W.
  - exact W.
  - change (handleZooms st (w :: ws))
      with (handleZooms (handleZoom st (fst w) (snd w)) ws).
    apply IH. now apply handleZoom_wellClamped.
Qed.

Lemma handleZooms_calibration (ws : list Wheel) :
  forall st, calibration (handleZooms st ws) = calibration st.
Proof.
  induction ws as [ | w ws IH]; intros st.
  - reflexivity.
  - change (handleZooms st (w :: ws))
      with (handleZooms (handleZoom st (fst w) (snd w)) ws).
    rewrite IH. apply handleZoom_calibration.
Qed.

Lemma wellClamped_span (st : State) :
  wellClamped st ->
  leb (span (displayRange st)) (span (calculateSensorRange (calibration st))) = true.
Proof.
  intros (H1 & H2 & H3). now apply span_inside.
Qed.

(** A test passed by the difference of two bounds: neither is [NaN]. *)
Lemma geb_fit_sub_operands (a b c : num) :
  geb (Overflow.sub a b) c = true -> isNaN a = false /\ isNaN b = false.
Proof.
  unfold Overflow.sub.
  destruct a, b; cbn [sub neg add Overflow.fit]; intros H;
    try (split; reflexivity); try discriminate H;
    destruct c; discriminate H.
Qed.

Lemma clamp_inside_overflow (s e a b a' b' : num) :
  let newStart := max s (min a a') in
  let newEnd := min e (max b b') in
  geb (Overflow.sub newEnd newStart) (Fin 50) = true ->
  leb s newStart = true /\ leb newEnd e = true.
Proof.
  intros newStart newEnd H.
  destruct (geb_fit_sub_operands _ _ _ H) as [He Hs].
  split.
  - now apply max_lower.
  - now apply min_upper.
Qed.

(** A display range inside a finite sensor range is finite. *)
Lemma wellClamped_finite (st : State) (s t : Q) :
  calculateSensorRange (calibration st) = {| start := Fin s; end_ := Fin t |} ->
  wellClamped st ->
  exists a b, displayRange st = {| start := Fin a; end_ := Fin b |} /\
              s <= a /\ b <= t /\ 50 <= b - a.
Proof.
  intros E (H1 & H2 & H3). rewrite E in H1, H2. cbn [start end_] in H1, H2.
  unfold span in H3.
  destruct (displayRange st) as [a b]. cbn [start end_] in *.
  destruct a as [a | | | ], b as [b | | | ]; try discriminate.
  apply leb_Fin in H1, H2.
  change (sub (Fin b) (Fin a)) with (Fin (b + - a)) in H3. apply geb_Fin in H3.
  exists a, b. repeat split; assumption.
Qed.

(** No step of a zoom overflows from a clamped state under a calibration
    of moderate size, with the cursor on the canvas. *)
Lemma handleZoom_no_overflow (st : State) (x1 w1 x2 w2 z w x : Q) (deltaY : num) :
  Qabs x1 <= 1000000 -> Qabs w1 <= 1000000 ->
  Qabs x2 <= 1000000 -> Qabs w2 <= 1000000 ->
  1 / 1000000 <= Qabs (x2 - x1) ->
  calibration st = calibrationOf x1 w1 x2 w2 ->
  wellClamped st ->
  zoomFactor st = Fin z -> 1 <= z -> z <= 2 ->
  canvas_width st = Fin w -> 0 <= x -> x <= w -> 0 < w ->
  Overflow.handleZoom st (Fin x) deltaY = handleZoom st (Fin x) deltaY.
Proof.
  intros Bx1 Bw1 Bx2 Bw2 Far C W Z Z1 Z2 Cw X0 X1 W0.
  destruct (@calculateSensorRange_no_overflow x1 w1 x2 w2 Bx1 Bw1 Bx2 Bw2 Far)
    as (_ & O & s & t & E & Bs & Bt).
  cbv zeta in O, E. rewrite <- C in O, E.
  destruct (wellClamped_finite E W) as (a & b & D & Ha & Hb & Hab).
  apply Qabs_Qle_condition in Bs, Bt.
  unfold Overflow.handleZoom, handleZoom, Overflow.xToWavelength, xToWavelength.
  rewrite O, E, D, Z, Cw. cbn [start end_].
  (* the current span *)
  assert (Bc : 50 <= b + - a /\ b + - a <= 10000000000000000000) by (split; lra).
  rewrite (@sub_fit b a) by (apply Qabs_Qle_condition; split; lra).
  change (sub (Fin b) (Fin a)) with (Fin (b + - a)).
  set (cur := b + - a) in *.
  (* the cursor's share of the canvas *)
  assert (Wn : ~ w == 0) by lra.
  assert (R0 : 0 <= x / w) by (apply Qle_shift_div_l; lra).
  assert (R1 : x / w <= 1) by (apply Qle_shift_div_r; lra).
  rewrite (@div_fit x w) by (try exact Wn; apply Qabs_Qle_condition; split; lra).
  rewrite (div_Fin x Wn).
  set (rw := x / w) in *.
  assert (P0 : 0 <= rw * cur) by (apply Qmult_le_0_compat; lra).
  assert (P1 : rw * cur <= cur).
  { assert (0 <= (1 - rw) * cur) by (apply Qmult_le_0_compat; lra). lra. }
  rewrite (@mul_fit rw cur) by (apply Qabs_Qle_condition; split; lra).
  change (mul (Fin rw) (Fin cur)) with (Fin (rw * cur)).
  rewrite (@add_fit a (rw * cur)) by (apply Qabs_Qle_condition; split; lra).
  change (add (Fin a) (Fin (rw * cur))) with (Fin (a + rw * cur)).
  set (mw := a + rw * cur) in *.
  (* the cursor's ratio *)
  rewrite (@sub_fit mw a) by (apply Qabs_Qle_condition; unfold mw; split; lra).
  change (sub (Fin mw) (Fin a)) with (Fin (mw + - a)).
  assert (Cn : ~ cur == 0) by lra.
  assert (Q0 : 0 <= (mw + - a) / cur) by (apply Qle_shift_div_l; unfold mw; lra).
  assert (Q1 : (mw + - a) / cur <= 1) by (apply Qle_shift_div_r; unfold mw; lra).
  rewrite (@div_fit (mw + - a) cur) by (try exact Cn; apply Qabs_Qle_condition; split; lra).
  rewrite (div_Fin (mw + - a) Cn).
  set (ratio := (mw + - a) / cur) in *.
  (* the new span *)
  assert (Zn : ~ z == 0) by lra.
  assert (N1 : 0 <= cur / z) by (apply Qle_shift_div_l; lra).
  assert (N2 : cur / z <= cur) by (apply Qle_shift_div_r; nra).
  assert (N3 : 0 <= cur * z) by (apply Qmult_le_0_compat; lra).
  assert (N4 : cur * z <= 20000000000000000000).
  { assert (0 <= cur * (2 - z)) by (apply Qmult_le_0_compat; lra). lra. }
  assert (NR : exists nr,
             (if ltb deltaY (Fin 0) then Overflow.div (Fin cur) (Fin z)
              else Overflow.mul (Fin cur) (Fin z)) = Fin nr /\
             (if ltb deltaY (Fin 0) then div (Fin cur) (Fin z)
              else mul (Fin cur) (Fin z)) = Fin nr /\
             0 <= nr /\ nr <= 20000000000000000000).
  { destruct (ltb deltaY (Fin 0)).
    - exists (cur / z).
      rewrite (@div_fit cur z) by (try exact Zn; apply Qabs_Qle_condition; split; lra).
      rewrite (div_Fin cur Zn). repeat split; try reflexivity; lra.
    - exists (cur * z).
      rewrite (@mul_fit cur z) by (apply Qabs_Qle_condition; split; lra).
      repeat split; try reflexivity; lra. }
  destruct NR as (nr & -> & -> & Nr0 & Nr1).
  assert (M0 : 0 <= ratio * nr) by (apply Qmult_le_0_compat; lra).
  assert (M1 : ratio * nr <= nr).
  { assert (0 <= (1 - ratio) * nr) by (apply Qmult_le_0_compat; lra). lra. }
  rewrite (@mul_fit ratio nr) by (apply Qabs_Qle_condition; split; lra).
  change (mul (Fin ratio) (Fin nr)) with (Fin (ratio * nr)).
  rewrite (@sub_fit mw (ratio * nr)) by (apply Qabs_Qle_condition; unfold mw; split; lra).
  change (sub (Fin mw) (Fin (ratio * nr))) with (Fin (mw + - (ratio * nr))).
  rewrite (@add_fit (mw + - (ratio * nr)) nr)
    by (apply Qabs_Qle_condition; unfold mw; split; lra).
  change (add (Fin (mw + - (ratio * nr))) (Fin nr)) with (Fin (mw + - (ratio * nr) + nr)).
  rewrite (@sub_fit t 50) by (apply Qabs_Qle_condition; split; lra).
  rewrite (@add_fit s 50) by (apply Qabs_Qle_condition; split; lra).
  change (sub (Fin t) (Fin 50)) with (Fin (t + - (50))).
  change (add (Fin s) (Fin 50)) with (Fin (s + 50)).
  (* the clamped bounds *)
  destruct (min_Fin (mw + - (ratio * nr)) (t + - (50))) as (m1 & -> & L1 & L2 & _).
  destruct (max_Fin s m1) as (lo & -> & L3 & L4 & Dlo).
  destruct (max_Fin (mw + - (ratio * nr) + nr) (s + 50)) as (m2 & -> & U1 & U2 & _).
  destruct (min_Fin t m2) as (hi & -> & U3 & U4 & Dhi).
  assert (Blo : s <= lo /\ lo <= 5000000000000000000).
  { split; [ exact L3 | ]. destruct Dlo as [-> | ->]; lra. }
  assert (Bhi : - (5000000000000000000) <= hi /\ hi <= t).
  { split; [ | exact U3 ]. destruct Dhi as [-> | ->]; lra. }
  rewrite (@sub_fit hi lo) by (apply Qabs_Qle_condition; split; lra).
  reflexivity.
Qed.

(** The body of [handleZoom], with the clamped bounds written out. *)
Lemma handleZoom_cases (st : State) (mouseX deltaY : num) :
  let sensor := calculateSensorRange (calibration st) in
  let current := sub (end_ (displayRange st)) (start (displayRange st)) in
  let newRange := if ltb deltaY (Fin 0) then div current (zoomFactor st)
                  else mul current (zoomFactor st) in
  let mouseWavelength := xToWavelength st mouseX in
  let mouseRatio := div (sub mouseWavelength (start (displayRange st))) current in
  let newStart0 := sub mouseWavelength (mul mouseRatio newRange) in
  let newEnd0 := add newStart0 newRange in
  let newStart := max (start sensor) (min newStart0 (sub (end_ sensor) (Fin 50))) in
  let newEnd := min (end_ sensor) (max newEnd0 (add (start sensor) (Fin 50))) in
  (geb (sub newEnd newStart) (Fin 50) = false -> handleZoom st mouseX deltaY = st) /\
  (geb (sub newEnd newStart) (Fin 50) = true ->
   handleZoom st mouseX deltaY
   = set_displayRange st {| start := newStart; end_ := newEnd |}).
Proof.
  cbv zeta. unfold handleZoom. split; intros H; rewrite H; reflexivity.
Qed.

(** C1 (amended).  A single [handleZoom], at any cursor position and
    scroll delta, computes the new range around the cursor and clamps it:
    the start into [sensor.start, sensor.end - 50], the end into
    [sensor.start + 50, sensor.end].  When the clamped span is below 50 nm,
    or is not a number, the zoom is a no-op: the state is unchanged.
    Otherwise the clamped bounds are stored, and they lie inside
    [calculateSensorRange()] with a span of at least 50 nm.  The same holds
    of the zoom computed with arithmetic that overflows, where a step that
    overflowed ends in the no-op; and from a clamped state under a
    calibration of moderate size, with the cursor on the canvas, no step
    overflows and the two computations agree.  Hence, from a state whose
    display range lies inside the sensor range with a span of at least
    50 nm, every finite sequence of zooms ends in such a state: the span
    stays between 50 nm and the span of the sensor range, and the
    calibration is untouched. *)
Theorem handleZooms_clamped (st : State) :
  (forall mouseX deltaY,
      let sensor := calculateSensorRange (calibration st) in
      let current := sub (end_ (displayRange st)) (start (displayRange st)) in
      let newRange := if ltb deltaY (Fin 0) then div current (zoomFactor st)
                      else mul current (zoomFactor st) in
      let mouseWavelength := xToWavelength st mouseX in
      let mouseRatio := div (sub mouseWavelength (start (displayRange st))) current in
      let newStart0 := sub mouseWavelength (mul mouseRatio newRange) in
      let newEnd0 := add newStart0 newRange in
      let newStart := max (start sensor) (min newStart0 (sub (end_ sensor) (Fin 50))) in
      let newEnd := min (end_ sensor) (max newEnd0 (add (start sensor) (Fin 50))) in
      (* a clamped span below 50, or not a number: no-op *)
      (geb (sub newEnd newStart) (Fin 50) = false ->
       handleZoom st mouseX deltaY = st) /\
      (* otherwise the clamped bounds are stored, inside the sensor range *)
      (geb (sub newEnd newStart) (Fin 50) = true ->
       handleZoom st mouseX deltaY
       = set_displayRange st {| start := newStart; end_ := newEnd |} /\
       wellClamped (handleZoom st mouseX deltaY))) /\
  (* the same with arithmetic that overflows *)
  (forall mouseX deltaY,
      let sensor := Overflow.calculateSensorRange (calibration st) in
      let current := Overflow.sub (end_ (displayRange st)) (start (displayRange st)) in
      let newRange := if ltb deltaY (Fin 0) then Overflow.div current (zoomFactor st)
                      else Overflow.mul current (zoomFactor st) in
      let mouseWavelength := Overflow.xToWavelength st mouseX in
      let mouseRatio :=
        Overflow.div (Overflow.sub mouseWavelength (start (displayRange st))) current in
      let newStart0 := Overflow.sub mouseWavelength (Overflow.mul mouseRatio newRange) in
      let newEnd0 := Overflow.add newStart0 newRange in
      let newStart :=
        max (start sensor) (min newStart0 (Overflow.sub (end_ sensor) (Fin 50))) in
      let newEnd :=
        min (end_ sensor) (max newEnd0 (Overflow.add (start sensor) (Fin 50))) in
      (geb (Overflow.sub newEnd newStart) (Fin 50) = false ->
       Overflow.handleZoom st mouseX deltaY = st) /\
      (geb (Overflow.sub newEnd newStart) (Fin 50) = true ->
       Overflow.handleZoom st mouseX deltaY
       = set_displayRange st {| start := newStart; end_ := newEnd |} /\
       leb (start sensor) newStart = true /\ leb newEnd (end_ sensor) = true)) /\
  (* no overflow from a clamped state of moderate size *)
  (forall (x1 w1 x2 w2 z w x : Q) (deltaY : num),
      Qabs x1 <= 1000000 -> Qabs w1 <= 1000000 ->
      Qabs x2 <= 1000000 -> Qabs w2 <= 1000000 ->
      1 / 1000000 <= Qabs (x2 - x1) ->
      calibration st = calibrationOf x1 w1 x2 w2 ->
      wellClamped st ->
      zoomFactor st = Fin z -> 1 <= z -> z <= 2 ->
      canvas_width st = Fin w -> 0 <= x -> x <= w -> 0 < w ->
      Overflow.handleZoom st (Fin x) deltaY = handleZoom st (Fin x) deltaY) /\
  (forall mouseX deltaY,
      handleZoom st mouseX deltaY = st \/ wellClamped (handleZoom st mouseX deltaY)) /\
  (wellClamped st ->
   forall ws : list Wheel,
     let st' := handleZooms st ws in
     wellClamped st' /\
     leb (span (displayRange st')) (span (calculateSensorRange (calibration st'))) = true /\
     calibration st' = calibration st).
Proof.
  split; [ | split; [ | split; [ | split ] ] ].
  - intros mouseX deltaY. cbv zeta.
    destruct (handleZoom_cases st mouseX deltaY) as [No Yes]. cbv zeta in No, Yes.
    split; [ exact No | ].
    intros H. split; [ exact (Yes H) | ].
    rewrite (Yes H). unfold wellClamped; simpl.
    destruct (clamp_inside _ _ _ _ H) as [H1 H2].
    repeat split; assumption.
  - intros mouseX deltaY. cbv zeta. unfold Overflow.handleZoom.
    split; intros H; rewrite H; [ reflexivity | ].
    split; [ reflexivity | ].
    exact (clamp_inside_overflow _ _ _ _ _ _ H).
  - intros x1 w1 x2 w2 z w x deltaY. apply handleZoom_no_overflow.
  - apply handleZoom_step.
  - intros W ws st'.
    assert (W' : wellClamped st') by now apply handleZooms_wellClamped.
    split; [ exact W' | ].
    split; [ now apply wellClamped_span | apply handleZooms_calibration ].
Qed.

(** The constructor's state, zoomed in at mid-canvas and out near the left
    edge; and a zoom-in on a view of 50 nm, which is refused without any
    step overflowing. *)
Lemma handleZooms_clamped_witness :
  (wellClamped (constructor (Fin 960)) /\
   let st' := handleZooms (constructor (Fin 960))
                [(Fin 480, Fin (-100)); (Fin 100, Fin 100)] in
   wellClamped st' /\
   leb (span (displayRange st')) (span (calculateSensorRange (calibration st'))) = true /\
   calibration st' = calibration (constructor (Fin 960))) /\
  (let narrow := updateDisplayRange (constructor (Fin 960)) (Fin 350) (Fin 400) in
   range_eq (displayRange narrow) {| start := Fin 350; end_ := Fin 400 |} /\
   handleZoom narrow (Fin 480) (Fin (-100)) = narrow /\
   Overflow.handleZoom narrow (Fin 480) (Fin (-100)) = narrow /\
   Overflow.handleZoom narrow (Fin 480) (Fin (-100))
   = handleZoom narrow (Fin 480) (Fin (-100))).
Proof.
  assert (W : wellClamped (constructor (Fin 960)))
    by (repeat split; vm_compute; reflexivity).
  split.
  - split; [ exact W | ].
    destruct (handleZooms_clamped (constructor (Fin 960))) as (_ & _ & _ & _ & H).
    exact (H W [(Fin 480, Fin (-100)); (Fin 100, Fin 100)]).
  - cbv zeta. split; [ split; vm_compute; reflexivity | ].
    destruct (handleZooms_clamped
                (updateDisplayRange (constructor (Fin 960)) (Fin 350) (Fin 400)))
      as (E & H & A & _).
    split; [ | split ].
    + destruct (E (Fin 480) (Fin (-100))) as [No _].
      apply No. vm_compute. reflexivity.
    + destruct (H (Fin 480) (Fin (-100))) as [No _].
      apply No. vm_compute. reflexivity.
    + apply (A 1623 405.4 1238 611.6 1.1 960 480 (Fin (-100)));
        try reflexivity; try (vm_compute; discriminate).
      repeat split; vm_compute; reflexivity.
Defined.

(** *** Zoom sequences at the left edge *)

(** A wheel event at the left edge of the canvas, on finite values and
    away from the clamps: the start stays, the span becomes the new range. *)
Lemma handleZoom_at_left (st : State) (deltaY : num) (s e z w a b r0 : Q) :
  calculateSensorRange (calibration st) = {| start := Fin s; end_ := Fin e |} ->
  zoomFactor st = Fin z -> canvas_width st = Fin w -> ~ w == 0 ->
  displayRange st = {| start := Fin a; end_ := Fin b |} -> a < b ->
  (if ltb deltaY (Fin 0) then div (Fin (b + - a)) (Fin z)
   else mul (Fin (b + - a)) (Fin z)) = Fin r0 ->
  s <= a -> a <= e - 50 -> s + 50 <= a + r0 -> a + r0 <= e -> 50 <= r0 ->
  exists a' b',
    handleZoom st (Fin 0) deltaY
    = set_displayRange st {| start := Fin a'; end_ := Fin b' |} /\
    a' == a /\ b' == a + r0.
Proof.
  intros Hsr Hz Hw Nw Hd Hab Hnr B1 B2 B3 B4 B5.
  unfold handleZoom, xToWavelength. rewrite Hsr, Hz, Hw, Hd. cbn [start end_].
  change (sub (Fin b) (Fin a)) with (Fin (b + - a)).
  rewrite Hnr. rewrite (div_Fin 0 Nw).
  change (add (Fin a) (mul (Fin (0 / w)) (Fin (b + - a))))
    with (Fin (a + 0 / w * (b + - a))).
  set (mw := a + 0 / w * (b + - a)).
  change (sub (Fin mw) (Fin a)) with (Fin (mw + - a)).
  rewrite div_Fin by lra.
  set (ratio := (mw + - a) / (b + - a)).
  change (sub (Fin mw) (mul (Fin ratio) (Fin r0))) with (Fin (mw + - (ratio * r0))).
  set (ns0 := mw + - (ratio * r0)).
  change (add (Fin ns0) (Fin r0)) with (Fin (ns0 + r0)).
  change (sub (Fin e) (Fin 50)) with (Fin (e + - 50)).
  change (add (Fin s) (Fin 50)) with (Fin (s + 50)).
  assert (Emw : mw == a) by (unfold mw; field; exact Nw).
  assert (Er : ratio == 0).
  { unfold ratio. setoid_replace (mw + - a) with 0 by lra. field. lra. }
  assert (Ens : ns0 == a).
  { unfold ns0. rewrite Er, Emw. ring. }
  destruct (@min_Fin_l ns0 (e + - 50)) as (m1 & -> & E1); [ lra | ].
  destruct (@max_Fin_r s m1) as (m2 & -> & E2); [ lra | ].
  destruct (@max_Fin_l (ns0 + r0) (s + 50)) as (m3 & -> & E3); [ lra | ].
  destruct (@min_Fin_r e m3) as (m4 & -> & E4); [ lra | ].
  change (sub (Fin m4) (Fin m2)) with (Fin (m4 + - m2)).
  assert (G : geb (Fin (m4 + - m2)) (Fin 50) = true) by (apply geb_Fin; lra).
  rewrite G. exists m2, m4. split; [ reflexivity | ]. split; lra.
Qed.

Lemma handleZooms_cons (st : State) (w : Wheel) (ws : list Wheel) :
  handleZooms st (w :: ws) = handleZooms (handleZoom st (fst w) (snd w)) ws.
Proof. reflexivity. Qed.

Lemma sensorRange_default_value :
  exists s e,
    calculateSensorRange defaultCalibration = {| start := Fin s; end_ := Fin e |}
    /\ s == 246.3 /\ e == 1274.7.
Proof. eexists _, _. split; [ vm_compute; reflexivity | split; reflexivity ]. Qed.

Lemma sensorRange_0_3840_value :
  exists s e,
    calculateSensorRange calibration_0_3840 = {| start := Fin s; end_ := Fin e |}
    /\ s == 0 /\ e == 3840.
Proof. eexists _, _. split; [ vm_compute; reflexivity | split; reflexivity ]. Qed.

(** One zoom-in at the left edge divides the span by 1.1. *)
Lemma zoomIn_left (st : State) (r : Q) :
  leftZoomState defaultCalibration st r -> 55 <= r -> r <= 850 ->
  leftZoomState defaultCalibration (handleZoom st (Fin 0) (Fin (-100))) (r * (10 # 11)).
Proof.
  intros (C & Z & W & a & b & D & Ea & Eb) R1 R2.
  destruct sensorRange_default_value as (s & e & Hsr & Es & Ee).
  rewrite <- C in Hsr.
  set (q := (b + - a) / 1.1).
  assert (Hq : q == (b + - a) * (10 # 11)) by (unfold q; field).
  assert (N : (if ltb (Fin (-100)) (Fin 0) then div (Fin (b + - a)) (Fin 1.1)
               else mul (Fin (b + - a)) (Fin 1.1)) = Fin q).
  { change (ltb (Fin (-100)) (Fin 0)) with true. cbv iota.
    now rewrite div_Fin by discriminate. }
  assert (W0 : ~ 960 == 0) by discriminate.
  assert (P : exists a' b',
             handleZoom st (Fin 0) (Fin (-100))
             = set_displayRange st {| start := Fin a'; end_ := Fin b' |} /\
             a' == a /\ b' == a + q).
  { apply (@handleZoom_at_left st (Fin (-100)) s e 1.1 960 a b q
             Hsr Z W W0 D); try lra; exact N. }
  destruct P as (a' & b' & -> & Ea' & Eb').
  repeat split; auto. exists a', b'. split; [ reflexivity | ]. split; lra.
Qed.

(** One zoom-out at the left edge, under the 2 nm per pixel calibration,
    multiplies the span by 1.1. *)
Lemma zoomOut_left (st : State) (r : Q) :
  leftZoomState calibration_0_3840 st r -> 50 <= r -> r <= 3000 ->
  leftZoomState calibration_0_3840 (handleZoom st (Fin 0) (Fin 100)) (r * 1.1).
Proof.
  intros (C & Z & W & a & b & D & Ea & Eb) R1 R2.
  destruct sensorRange_0_3840_value as (s & e & Hsr & Es & Ee).
  rewrite <- C in Hsr.
  assert (N : (if ltb (Fin 100) (Fin 0) then div (Fin (b + - a)) (Fin 1.1)
               else mul (Fin (b + - a)) (Fin 1.1)) = Fin ((b + - a) * 1.1))
    by reflexivity.
  assert (W0 : ~ 960 == 0) by discriminate.
  assert (P : exists a' b',
             handleZoom st (Fin 0) (Fin 100)
             = set_displayRange st {| start := Fin a'; end_ := Fin b' |} /\
             a' == a /\ b' == a + (b + - a) * 1.1).
  { apply (@handleZoom_at_left st (Fin 100) s e 1.1 960 a b ((b + - a) * 1.1)
             Hsr Z W W0 D); try lra; exact N. }
  destruct P as (a' & b' & -> & Ea' & Eb').
  repeat split; auto. exists a', b'. split; [ reflexivity | ]. split; lra.
Qed.

(** Twenty-three zoom-ins from the constructor's state. *)
Lemma zoomIn_23 :
  leftZoomState defaultCalibration
    (handleZooms (constructor (Fin 960)) (repeat (Fin 0, Fin (-100)) 23))
    (850 * (10 # 11) * (10 # 11) * (10 # 11) * (10 # 11) * (10 # 11)
         * (10 # 11) * (10 # 11) * (10 # 11) * (10 # 11) * (10 # 11)
         * (10 # 11) * (10 # 11) * (10 # 11) * (10 # 11) * (10 # 11)
         * (10 # 11) * (10 # 11) * (10 # 11) * (10 # 11) * (10 # 11)
         * (10 # 11) * (10 # 11) * (10 # 11)).
Proof.
  cbn [repeat].
  assert (S0 : leftZoomState defaultCalibration (constructor (Fin 960)) 850).
  { repeat split. exists 350, 1200. repeat split; reflexivity. }
  repeat (rewrite handleZooms_cons; cbn [fst snd]).
  change (handleZooms ?s []) with s.
  repeat (apply zoomIn_left; [ | lra | lra ]).
  exact S0.
Qed.

(** Nine zoom-outs after a calibration of 2 nm per pixel. *)
Lemma zoomOut_9 :
  leftZoomState calibration_0_3840
    (handleZooms
       (updateCalibration (constructor (Fin 960))
          {| x := Fin 0; wavelength := Fin 0 |}
          {| x := Fin 1920; wavelength := Fin 3840 |})
       (repeat (Fin 0, Fin 100) 9))
    (850 * 1.1 * 1.1 * 1.1 * 1.1 * 1.1 * 1.1 * 1.1 * 1.1 * 1.1).
Proof.
  cbn [repeat].
  assert (S0 : leftZoomState calibration_0_3840
                 (updateCalibration (constructor (Fin 960))
                    {| x := Fin 0; wavelength := Fin 0 |}
                    {| x := Fin 1920; wavelength := Fin 3840 |}) 850).
  { repeat split. exists 350, 1200. repeat split; reflexivity. }
  repeat (rewrite handleZooms_cons; cbn [fst snd]).
  change (handleZooms ?s []) with s.
  repeat (apply zoomOut_left; [ | lra | lra ]).
  exact S0.
Qed.

(** C1, the claim as stated fails.  From the constructor's state (display
    range {350, 1200}, canvas of 960 pixels), 23 zoom-ins with the cursor at
    the left edge are all accepted and leave a span below 100 nm (about
    94.9 nm).  After a calibration of 2 nm per pixel (sensor range
    {0, 3840}), nine zoom-outs leave a span above 2000 nm.  The same in two
    steps each: after [updateDisplayRange(350, 455)] one zoom-in takes the
    span from 105 nm to about 95.5 nm, and under the sensor range {0, 3840}
    one zoom-out takes the display range {0, 1900} to a span of 2090 nm. *)
Lemma handleZoom_span_outside_100_2000 :
  let st := handleZooms (constructor (Fin 960)) (repeat (Fin 0, Fin (-100)) 23) in
  let su := handleZooms
              (updateCalibration (constructor (Fin 960))
                 {| x := Fin 0; wavelength := Fin 0 |}
                 {| x := Fin 1920; wavelength := Fin 3840 |})
              (repeat (Fin 0, Fin 100) 9) in
  let st0 := updateDisplayRange (constructor (Fin 960)) (Fin 350) (Fin 455) in
  let st1 := handleZooms st0 [(Fin 0, Fin (-100))] in
  let su0 := updateDisplayRange
               (set_calibration (constructor (Fin 960)) calibration_0_3840)
               (Fin 0) (Fin 1900) in
  let su1 := handleZooms su0 [(Fin 0, Fin 100)] in
  (ltb (span (displayRange st)) (Fin 100) = true /\
   gtb (span (displayRange su)) (Fin 2000) = true) /\
  (range_eq (displayRange st0) {| start := Fin 350; end_ := Fin 455 |} /\
   st1 <> st0 /\
   ltb (span (displayRange st1)) (Fin 100) = true) /\
  (range_eq (displayRange su0) {| start := Fin 0; end_ := Fin 1900 |} /\
   su1 <> su0 /\
   gtb (span (displayRange su1)) (Fin 2000) = true).
Proof.
  intros st su. cbv zeta. split.
  - destruct zoomIn_23 as (_ & _ & _ & a & b & D & Ea & Eb).
    destruct zoomOut_9 as (_ & _ & _ & a' & b' & D' & Ea' & Eb').
    fold st in D. fold su in D'. rewrite D, D'. unfold span; cbn [start end_].
    change (sub (Fin b) (Fin a)) with (Fin (b + - a)).
    change (sub (Fin b') (Fin a')) with (Fin (b' + - a')).
    split; [ apply ltb_Fin | apply gtb_Fin ]; lra.
  - split; (split; [ split; vm_compute; reflexivity | ]);
      (split; [ | vm_compute; reflexivity ]);
      intros H; apply (f_equal (fun s => end_ (displayRange s))) in H;
      vm_compute in H; discriminate H.
Qed.

End Zoom.

(* ------------------------------------------------------------------ *)
(** ** Setting the calibration *)

Section Calibrate.

Import Spectragraph Main.

Lemma calibrateHandler_guard (i : CalibrationInputs) :
  negb (isNaN (cal1X i)) && negb (isNaN (cal1Wave i)) &&
  negb (isNaN (cal2X i)) && negb (isNaN (cal2Wave i)) = negb (anyNaN i).
Proof.
  unfold anyNaN.
  destruct (isNaN (cal1X i)), (isNaN (cal1Wave i)), (isNaN (cal2X i)),
    (isNaN (cal2Wave i)); reflexivity.
Qed.

(** C5 (amended).  The guarded calibrate handler rejects, with an alert and
    the stored calibration and every other field unchanged, exactly when a
    pixel or a wavelength is [NaN]; otherwise it replaces both calibration
    points by the new pair at once and touches nothing else. *)
Theorem calibrateHandler_rejects_NaN (st : State) (i : CalibrationInputs) :
  (anyNaN i = true ->
   calibrateHandler st i = (st, Alert rejectionMessage)) /\
  (anyNaN i = false ->
   snd (calibrateHandler st i) = Quiet /\
   calibration (fst (calibrateHandler st i))
   = {| point1 := inputPoint1 i; point2 := inputPoint2 i |} /\
   fst (calibrateHandler st i)
   = set_calibration st {| point1 := inputPoint1 i; point2 := inputPoint2 i |}).
Proof.
  unfold calibrateHandler. rewrite calibrateHandler_guard.
  split; intros ->; simpl; auto.
Qed.

Lemma calibrateHandler_rejects_NaN_witness :
  calibrateHandler (constructor (Fin 960))
    {| cal1X := Fin 1623; cal1Wave := NaN; cal2X := Fin 1238; cal2Wave := Fin 611.6 |}
  = (constructor (Fin 960), Alert rejectionMessage) /\
  calibration
    (fst (calibrateHandler (constructor (Fin 960))
            {| cal1X := Fin 100; cal1Wave := Fin 400; cal2X := Fin 900; cal2Wave := Fin 800 |}))
  = calibrationOf 100 400 900 800.
Proof.
  split.
  - apply (calibrateHandler_rejects_NaN (constructor (Fin 960))
             {| cal1X := Fin 1623; cal1Wave := NaN;
                cal2X := Fin 1238; cal2Wave := Fin 611.6 |}).
    reflexivity.
  - apply (calibrateHandler_rejects_NaN (constructor (Fin 960))
             {| cal1X := Fin 100; cal1Wave := Fin 400;
                cal2X := Fin 900; cal2Wave := Fin 800 |}).
    reflexivity.
Defined.

(** C5, the claim as stated fails: two points on the same pixel, and a
    point with an infinite wavelength, are accepted without an alert and
    replace the stored calibration. *)
Lemma calibrateHandler_accepts_degenerate :
  let st := constructor (Fin 960) in
  let same := {| cal1X := Fin 500; cal1Wave := Fin 400;
                 cal2X := Fin 500; cal2Wave := Fin 600 |} in
  let infinite := {| cal1X := Fin 100; cal1Wave := PInf;
                     cal2X := Fin 900; cal2Wave := Fin 600 |} in
  (snd (calibrateHandler st same) = Quiet /\
   calibration (fst (calibrateHandler st same)) = calibrationOf 500 400 500 600 /\
   calibration (fst (calibrateHandler st same)) <> calibration st) /\
  (snd (calibrateHandler st infinite) = Quiet /\
   calibration (fst (calibrateHandler st infinite)) <> calibration st).
Proof.
  cbv zeta. repeat split; try reflexivity; intros H; discriminate H.
Qed.

(** The listener registered first has no guard: on a click, a [NaN]
    wavelength is stored before the guarded listener raises its alert. *)
Lemma calibrateClick_stores_NaN (st : State) (i : CalibrationInputs) :
  anyNaN i = true ->
  snd (calibrateClick st i) = Alert rejectionMessage /\
  calibration (fst (calibrateClick st i))
  = {| point1 := inputPoint1 i; point2 := inputPoint2 i |}.
Proof.
  intros H. unfold calibrateClick.
  destruct (calibrateHandler_rejects_NaN (calibrateButtonHandler st i) i) as [R _].
  rewrite (R H). split; reflexivity.
Qed.

(** A calibration on a single pixel has no sensor range: both bounds are
    [NaN]. *)
Lemma degenerate_sensorRange :
  calculateSensorRange (calibrationOf 500 400 500 600)
  = {| start := NaN; end_ := NaN |}.
Proof. reflexivity. Qed.

End Calibrate.

(* ------------------------------------------------------------------ *)
(** ** Starting a recording *)

Section StartRecording.

Import Spectragraph RecordingManager.

(** The length test never fires. *)
Lemma not_length_is_zero_false (n : nat) : not_length_is_zero n = false.
Proof. reflexivity. Qed.

(** Without data arrays nothing is started. *)
Lemma startRecording_no_arrays (r : Recorder) (e : Env) :
  getCurrentData (graph e) = None ->
  exists message, startRecording r e = (r, false, Some message).
Proof.
  intros H. unfold startRecording, checkRecordingPossible. rewrite H.
  eexists. reflexivity.
Qed.

(** With raw video requested and no stream nothing is started. *)
Lemma startRecording_no_stream (r : Recorder) (e : Env) :
  recordRawVideo e = true -> stream e = false ->
  exists message, startRecording r e = (r, false, Some message).
Proof.
  intros H1 H2. unfold startRecording, checkRecordingPossible.
  rewrite H1, H2. destruct (getCurrentData (graph e)); eexists; reflexivity.
Qed.

(** As soon as the spectragraph holds two arrays, of any length, and raw
    video is not requested, the recording starts. *)
Lemma startRecording_any_length (r : Recorder) (e : Env) (d rw : list num) :
  data (graph e) = Some d -> rawData (graph e) = Some rw ->
  recordRawVideo e = false ->
  exists r', startRecording r e = (r', true, None) /\
             isRecording r' = true /\ intervalId r' = Some (recordInterval r).
Proof.
  intros D R V. unfold startRecording, checkRecordingPossible, getCurrentData.
  rewrite D, R, V. rewrite not_length_is_zero_false. cbn [andb].
  eexists. split; [ reflexivity | ]. split; reflexivity.
Qed.

(** C6, the code at the failing input.  The spectragraph holds two empty
    arrays, raw video is not requested: [startRecording] returns [true]
    without an alert, the recording flag is set and the sampling timer
    runs. *)
Theorem startRecording_empty_arrays :
  getCurrentData emptyGraph = Some {| raw := []; corrected := []; length_ := 0 |} /\
  checkRecordingPossible emptyFrameEnv = inr tt /\
  startRecording newRecorder emptyFrameEnv
  = ({| mediaRecorder := false; recordedChunks := 0; spectralData := [];
        isRecording := true; recordInterval := Fin 1000;
        intervalId := Some (Fin 1000); startTime := Some (Fin 0) |},
     true, None).
Proof. repeat split. Qed.

End StartRecording.

(* ------------------------------------------------------------------ *)
(** ** findNearestPeak *)

Section PeakOrder.

Open Scope Q_scope.

Lemma gtb_trans (a b c : num) :
  gtb a b = true -> gtb b c = true -> gtb a c = true.
Proof.
  destruct a as [a | | | ], b as [b | | | ], c as [c | | | ];
    simpl; intros H1 H2; try discriminate; try reflexivity.
  apply gtb_Fin in H1, H2. apply gtb_Fin. lra.
Qed.

(** A number that does not exceed [p] does not exceed anything above [p]. *)
Lemma gtb_chain (v p v' : num) :
  isNaN v = false -> gtb v p = false -> gtb v' p = true -> gtb v v' = false.
Proof.
  destruct v as [v | | | ], p as [p | | | ], v' as [v' | | | ];
    simpl; intros H0 H1 H2; try discriminate; try reflexivity.
  apply gtb_Fin in H2. apply ltb_Fin_false in H1. apply ltb_Fin_false. lra.
Qed.

Lemma gtb_irrefl (v : num) : gtb v v = false.
Proof.
  destruct v as [v | | | ]; try reflexivity.
  apply ltb_Fin_false. apply Qle_refl.
Qed.

Lemma gtb_notNaN (a b : num) : gtb a b = true -> isNaN a = false.
Proof. destruct a, b; simpl; intros H; try discriminate H; reflexivity. Qed.

End PeakOrder.

Section PeakLoop.

Import Spectragraph.

Variables (width : num) (d : list num) (mouseX : num).

Let at_ (o : Z) : num := add mouseX (ofZ o).
Let step := peakStep width d mouseX.

(** The loop body: the running peak moves to a position that passes
    [isPeakAt] with a value above the running one. *)
Lemma peakStep_spec (acc : Peak) (o : Z) :
  step acc o =
  if isPeakAt width d (at_ o) && gt (valueAt width d (at_ o)) (peak_value acc)
  then {| peak_x := at_ o; peak_value := valueAt width d (at_ o) |}
  else acc.
Proof.
  unfold step, peakStep, isPeakAt, valueAt, at_.
  destruct (geb (add mouseX (ofZ o)) (Fin 0)); [ | reflexivity ].
  destruct (ltb (add mouseX (ofZ o)) width); [ | reflexivity ].
  destruct (gtb (dataIndexAt width d (add mouseX (ofZ o))) (Fin 1));
    [ | reflexivity ].
  destruct (ltb (dataIndexAt width d (add mouseX (ofZ o)))
              (sub (length_of d) (Fin 2))); [ | reflexivity ].
  repeat match goal with
         | |- context [gt ?a ?b] => destruct (gt a b)
         end; reflexivity.
Qed.

(** Shape of the result: the initial peak, or a position of the window
    that passes [isPeakAt], with a value above the initial one. *)
Lemma peakLoop_shape (os : list Z) :
  forall acc,
    fold_left step os acc = acc \/
    exists o, In o os /\ isPeakAt width d (at_ o) = true /\
              fold_left step os acc
              = {| peak_x := at_ o; peak_value := valueAt width d (at_ o) |} /\
              gt (valueAt width d (at_ o)) (peak_value acc) = true.
Proof.
  induction os as [ | o os IH]; intros acc; simpl.
  - now left.
  - rewrite peakStep_spec.
    destruct (isPeakAt width d (at_ o)) eqn:P; simpl;
      [ destruct (gt (valueAt width d (at_ o)) (peak_value acc)) eqn:G | ].
    + destruct (IH {| peak_x := at_ o; peak_value := valueAt width d (at_ o) |})
        as [E | (o' & I & P' & E & G')].
      * right. exists o. rewrite E. auto.
      * right. exists o'. rewrite E. repeat split; auto.
        simpl in G'. unfold gt in *. eapply gtb_trans; eassumption.
    + destruct (IH acc) as [E | (o' & I & P' & E & G')]; [ now left | ].
      right. exists o'. auto.
    + destruct (IH acc) as [E | (o' & I & P' & E & G')]; [ now left | ].
      right. exists o'. auto.
Qed.

(** The running value never falls below a number it already dominates. *)
Lemma peakLoop_mono (os : list Z) :
  forall acc v,
    isNaN (toNumber v) = false ->
    gt v (peak_value acc) = false ->
    gt v (peak_value (fold_left step os acc)) = false.
Proof.
  induction os as [ | o os IH]; intros acc v N G; simpl.
  - exact G.
  - apply IH; [ exact N | ]. rewrite peakStep_spec.
    destruct (isPeakAt width d (at_ o) &&
              gt (valueAt width d (at_ o)) (peak_value acc)) eqn:C; [ | exact G ].
    apply andb_true_iff in C. destruct C as [_ C]. simpl.
    unfold gt in *. eapply gtb_chain; eassumption.
Qed.

Lemma isPeakAt_threshold (x0 : num) :
  isPeakAt width d x0 = true -> isNaN (toNumber (valueAt width d x0)) = false.
Proof.
  unfold isPeakAt. rewrite !andb_true_iff. intros (_ & _ & H).
  unfold gt in H. now apply gtb_notNaN in H.
Qed.

(** No position of the window that passes [isPeakAt] has a value above the
    returned one. *)
Lemma peakLoop_bound (os : list Z) :
  forall acc o,
    In o os -> isPeakAt width d (at_ o) = true ->
    gt (valueAt width d (at_ o)) (peak_value (fold_left step os acc)) = false.
Proof.
  induction os as [ | o' os IH]; intros acc o I P; simpl.
  - destruct I.
  - destruct I as [-> | I]; [ | now apply IH ].
    apply peakLoop_mono; [ now apply isPeakAt_threshold | ].
    rewrite peakStep_spec, P; simpl.
    destruct (gt (valueAt width d (at_ o)) (peak_value acc)) eqn:G; simpl.
    + unfold gt. apply gtb_irrefl.
    + exact G.
Qed.

End PeakLoop.

Section PeakIndex.

Import Spectragraph.
Open Scope Q_scope.

Lemma In_offsets (o : Z) : In o offsets <-> (-10 <= o <= 10)%Z.
Proof.
  unfold offsets, searchRadius. rewrite in_map_iff. split.
  - intros (k & <- & I). apply in_seq in I. simpl in I. lia.
  - intros H. exists (Z.to_nat (o + 10)). split; [ lia | ].
    apply in_seq. simpl. lia.
Qed.

(** Reading an array at an integer index. *)
Lemma get_integer (d : list num) (q : Q) (z : Z) :
  q == inject_Z z -> (0 <= z)%Z -> get d (Fin q) = nth_error d (Z.to_nat z).
Proof.
  intros E H. unfold get.
  assert (F : Qfloor q = z) by (rewrite (Qfloor_comp _ _ E); apply Qfloor_Z).
  rewrite F.
  assert (B : Qeq_bool (inject_Z z) q = true)
    by (apply Qeq_bool_iff; now symmetry).
  rewrite B. apply Z.leb_le in H. now rewrite H.
Qed.

Lemma dataIndexAt_Fin (w : Q) (d : list num) (q : Q) :
  0 < w ->
  dataIndexAt (Fin w) d (Fin q)
  = ofZ (Qfloor (q / w * inject_Z (Z.of_nat (length d)))).
Proof.
  intros H. unfold dataIndexAt, length_of, ofZ.
  rewrite div_Fin by lra. reflexivity.
Qed.

(** A position on the canvas maps to an index inside the array. *)
Lemma index_in_range (w q : Q) (n : nat) :
  0 < w -> 0 <= q -> q < w -> (0 < n)%nat ->
  (0 <= Qfloor (q / w * inject_Z (Z.of_nat n)) < Z.of_nat n)%Z.
Proof.
  intros Hw H0 H1 Hn.
  set (L := inject_Z (Z.of_nat n)).
  assert (HL : 0 < L).
  { unfold L. change 0 with (inject_Z 0). rewrite <- Zlt_Qlt. lia. }
  assert (T0 : 0 <= q / w) by (apply Qle_shift_div_l; lra).
  assert (T1 : q / w < 1) by (apply Qlt_shift_div_r; lra).
  assert (P0 : 0 <= q / w * L) by (apply Qmult_le_0_compat; lra).
  assert (P1 : q / w * L < L).
  { setoid_replace L with (1 * L) at 2 by ring.
    apply Qmult_lt_compat_r; assumption. }
  split.
  - change 0%Z with (Qfloor 0). now apply Qfloor_resp_le.
  - rewrite Zlt_Qlt. fold L.
    apply Qle_lt_trans with (q / w * L); [ apply Qfloor_le | exact P1 ].
Qed.

End PeakIndex.

Section SinglePeak.

Import Spectragraph.
Open Scope Q_scope.

Variables (w : Q) (d : list num) (k : nat).

Hypothesis Hw : 0 < w.
Hypothesis Hk : (2 <= k)%nat /\ (k + 2 < length d)%nat.
Hypothesis Hpeak : nth_error d k = Some (Fin 1).
Hypothesis Hlow :
  forall i v, i <> k -> nth_error d i = Some v -> exists q, v = Fin q /\ q < 1.

Let L : Q := inject_Z (Z.of_nat (length d)).
Let idx (q : Q) : Z := Qfloor (q / w * L).

Lemma below_peak (j : nat) :
  j <> k -> (j < length d)%nat -> exists q, nth_error d j = Some (Fin q) /\ q < 1.
Proof.
  intros N B. destruct (nth_error d j) as [v | ] eqn:E.
  - destruct (Hlow N E) as (q & -> & Q1). now exists q.
  - apply nth_error_None in E. lia.
Qed.

Lemma idx_range (q : Q) :
  0 <= q -> q < w -> (0 <= idx q < Z.of_nat (length d))%Z.
Proof. intros H0 H1. apply index_in_range; auto. lia. Qed.

Lemma valueAt_canvas (q : Q) :
  0 <= q -> q < w ->
  valueAt (Fin w) d (Fin q) = nth_error d (Z.to_nat (idx q)).
Proof.
  intros H0 H1. unfold valueAt. rewrite dataIndexAt_Fin by exact Hw.
  apply get_integer; [ reflexivity | ]. now apply idx_range.
Qed.

Lemma value_cases (q : Q) :
  0 <= q -> q < w ->
  (idx q = Z.of_nat k /\ valueAt (Fin w) d (Fin q) = Some (Fin 1)) \/
  (exists v, valueAt (Fin w) d (Fin q) = Some (Fin v) /\ v < 1).
Proof.
  intros H0 H1. rewrite valueAt_canvas by assumption.
  pose proof (idx_range H0 H1) as R.
  destruct (Nat.eq_dec (Z.to_nat (idx q)) k) as [E | N].
  - left. rewrite E. split; [ lia | exact Hpeak ].
  - right. apply below_peak; [ exact N | lia ].
Qed.

(** On the canvas only the index of the maximum is not dominated by 1. *)
Lemma not_dominated (q : Q) :
  0 <= q -> q < w ->
  gt (Some (Fin 1)) (valueAt (Fin w) d (Fin q)) = false ->
  idx q = Z.of_nat k /\ valueAt (Fin w) d (Fin q) = Some (Fin 1).
Proof.
  intros H0 H1 G. destruct (value_cases H0 H1) as [C | (v & E & V)]; [ exact C | ].
  rewrite E in G. unfold gt in G; simpl in G.
  apply ltb_Fin_false in G. lra.
Qed.

Lemma neighbour (c : Z) :
  c <> 0%Z -> (-2 <= c <= 2)%Z ->
  exists q, get d (Fin (inject_Z (Z.of_nat k) + inject_Z c)) = Some (Fin q) /\ q < 1.
Proof.
  intros N B.
  rewrite get_integer with (z := (Z.of_nat k + c)%Z);
    [ | now rewrite inject_Z_plus | lia ].
  apply below_peak; lia.
Qed.

(** A canvas position over the maximum passes the peak test. *)
Lemma isPeakAt_maximum (q : Q) :
  0 <= q -> q < w -> idx q = Z.of_nat k -> isPeakAt (Fin w) d (Fin q) = true.
Proof.
  intros H0 H1 E. unfold isPeakAt.
  assert (V : valueAt (Fin w) d (Fin q) = Some (Fin 1)).
  { rewrite valueAt_canvas by assumption. rewrite E, Nat2Z.id. exact Hpeak. }
  assert (I : dataIndexAt (Fin w) d (Fin q) = Fin (inject_Z (Z.of_nat k))).
  { rewrite dataIndexAt_Fin by exact Hw. fold L. fold (idx q). now rewrite E. }
  rewrite V, I.
  assert (K1 : 1 < inject_Z (Z.of_nat k)).
  { change 1 with (inject_Z 1). rewrite <- Zlt_Qlt. lia. }
  assert (K2 : inject_Z (Z.of_nat k) < L + - 2).
  { unfold L. change (- 2) with (inject_Z (-2)).
    rewrite <- inject_Z_plus, <- Zlt_Qlt. lia. }
  destruct (neighbour (c := -2)) as (q1 & E1 & Q1); [ lia | lia | ].
  destruct (neighbour (c := -1)) as (q2 & E2 & Q2); [ lia | lia | ].
  destruct (neighbour (c := 1)) as (q3 & E3 & Q3); [ lia | lia | ].
  destruct (neighbour (c := 2)) as (q4 & E4 & Q4); [ lia | lia | ].
  change (sub (Fin (inject_Z (Z.of_nat k))) (Fin 2))
    with (Fin (inject_Z (Z.of_nat k) + inject_Z (-2))).
  change (sub (Fin (inject_Z (Z.of_nat k))) (Fin 1))
    with (Fin (inject_Z (Z.of_nat k) + inject_Z (-1))).
  change (add (Fin (inject_Z (Z.of_nat k))) (Fin 1))
    with (Fin (inject_Z (Z.of_nat k) + inject_Z 1)).
  change (add (Fin (inject_Z (Z.of_nat k))) (Fin 2))
    with (Fin (inject_Z (Z.of_nat k) + inject_Z 2)).
  rewrite E1, E2, E3, E4.
  repeat (apply andb_true_iff; split);
    first [ now apply geb_Fin | now apply ltb_Fin | now apply gtb_Fin
          | (apply ltb_Fin; exact K2) | (apply gtb_Fin; reflexivity) ].
Qed.

Lemma isPeakAt_canvas (q : Q) :
  isPeakAt (Fin w) d (Fin q) = true -> 0 <= q /\ q < w.
Proof.
  unfold isPeakAt. rewrite !andb_true_iff. intros (((G & B) & _) & _).
  split; [ now apply geb_Fin | now apply ltb_Fin ].
Qed.

(** The search returns a position over the maximum as soon as the window
    holds one. *)
Lemma single_peak (m : Q) (o : Z) :
  0 <= m -> m < w ->
  In o offsets -> 0 <= m + inject_Z o -> m + inject_Z o < w ->
  idx (m + inject_Z o) = Z.of_nat k ->
  exists q,
    peak_x (findNearestPeak (Fin w) d (Fin m)) = Fin q /\
    (q = m \/ exists o', In o' offsets /\ q = m + inject_Z o') /\
    0 <= q /\ q < w /\ idx q = Z.of_nat k /\
    peak_value (findNearestPeak (Fin w) d (Fin m)) = Some (Fin 1).
Proof.
  intros M0 M1 I X0 X1 E.
  pose proof (isPeakAt_maximum X0 X1 E) as P.
  assert (V : valueAt (Fin w) d (Fin (m + inject_Z o)) = Some (Fin 1)).
  { rewrite valueAt_canvas by assumption. rewrite E, Nat2Z.id. exact Hpeak. }
  unfold findNearestPeak.
  set (peak0 := {| peak_x := Fin m;
                   peak_value := get d (dataIndexAt (Fin w) d (Fin m)) |}).
  pose proof (peakLoop_bound (Fin w) d (Fin m) offsets peak0 o I P) as B.
  cbv beta zeta in B.
  change (add (Fin m) (ofZ o)) with (Fin (m + inject_Z o)) in B.
  rewrite V in B.
  pose proof (peakLoop_shape (Fin w) d (Fin m) offsets peak0) as S.
  cbv beta zeta in S.
  destruct S as [R | (o' & I' & P' & R & _)]; rewrite R in B; rewrite R;
    unfold peak0 in B |- *; cbn [peak_x peak_value] in B |- *.
  - destruct (not_dominated M0 M1 B) as [Ek Ev].
    exists m. repeat split; auto.
  - change (add (Fin m) (ofZ o')) with (Fin (m + inject_Z o')) in B, P' |- *.
    destruct (isPeakAt_canvas _ P') as [C0 C1].
    destruct (not_dominated C0 C1 B) as [Ek Ev].
    exists (m + inject_Z o'). repeat split; eauto.
Qed.

End SinglePeak.

Section PeakClaim.

Import Spectragraph.
Open Scope Q_scope.

(** A number between an integer and its successor has that integer as
    its floor. *)
Lemma Qfloor_between (x : Q) (z : Z) :
  inject_Z z <= x -> x < inject_Z z + 1 -> Qfloor x = z.
Proof.
  intros H1 H2. apply Z.le_antisymm.
  - apply Z.lt_succ_r. rewrite Zlt_Qlt.
    apply Qle_lt_trans with x; [ apply Qfloor_le | ].
    rewrite <- Z.add_1_r, inject_Z_plus. exact H2.
  - rewrite <- (Qfloor_Z z). now apply Qfloor_resp_le.
Qed.

(** C7 (amended).  [findNearestPeak] scans the 21 canvas positions within
    10 pixels of the cursor.  A position qualifies when it lies on the canvas,
    its data index has two neighbours on each side, and its value exceeds
    those four neighbours and 0.05.  The result is the cursor position with
    the raw value read there, or a qualifying position whose value exceeds
    the value at the cursor; in both cases no qualifying position of the
    window has a value above the returned one.  For a profile whose only
    maximum is 1.0 at index [k], with two neighbours on each side and every
    other value below 1 (in an array, which has fewer than 2^32 entries): when the window of a cursor on the canvas holds a
    position whose scaled coordinate [position / width * length] lies in
    the cell of index [k], at least 1/1000 away from the two ends of the
    cell, and the scaled coordinate of the cursor is itself at least 1/1000
    away from a whole number, the result is a position over index [k] with
    the value 1.0. *)
Theorem findNearestPeak_spec :
  (forall (width : num) (d : list num) (mouseX : num),
      let cursor := valueAt width d mouseX in
      let res := findNearestPeak width d mouseX in
      (res = {| peak_x := mouseX; peak_value := cursor |} \/
       exists o, In o offsets /\
                 isPeakAt width d (add mouseX (ofZ o)) = true /\
                 res = {| peak_x := add mouseX (ofZ o);
                          peak_value := valueAt width d (add mouseX (ofZ o)) |} /\
                 gt (valueAt width d (add mouseX (ofZ o))) cursor = true) /\
      (forall o, In o offsets ->
                 isPeakAt width d (add mouseX (ofZ o)) = true ->
                 gt (valueAt width d (add mouseX (ofZ o))) (peak_value res) = false) /\
      ((forall o, In o offsets ->
                  isPeakAt width d (add mouseX (ofZ o)) = true ->
                  gt (valueAt width d (add mouseX (ofZ o))) cursor = false) ->
       res = {| peak_x := mouseX; peak_value := cursor |}) /\
      ((exists o, In o offsets /\
                  isPeakAt width d (add mouseX (ofZ o)) = true /\
                  gt (valueAt width d (add mouseX (ofZ o))) cursor = true) ->
       exists o, In o offsets /\
                 isPeakAt width d (add mouseX (ofZ o)) = true /\
                 res = {| peak_x := add mouseX (ofZ o);
                          peak_value := valueAt width d (add mouseX (ofZ o)) |})) /\
  (forall (w : Q) (d : list num) (k : nat) (m : Q) (o : Z),
      0 < w ->
      (* an array has fewer than 2^32 entries *)
      (Z.of_nat (length d) <= 4294967295)%Z ->
      (2 <= k)%nat /\ (k + 2 < length d)%nat ->
      nth_error d k = Some (Fin 1) ->
      (forall i v, i <> k -> nth_error d i = Some v -> exists q, v = Fin q /\ q < 1) ->
      0 <= m -> m < w ->
      In o offsets -> 0 <= m + inject_Z o -> m + inject_Z o < w ->
      let scaled (x : Q) : Q := x / w * inject_Z (Z.of_nat (length d)) in
      (* the position [m + o] lies well inside the cell of index [k] *)
      inject_Z (Z.of_nat k) + (1 # 1000) <= scaled (m + inject_Z o) ->
      scaled (m + inject_Z o) <= inject_Z (Z.of_nat k) + 1 - (1 # 1000) ->
      (* the cursor does not sit on the border of a cell *)
      inject_Z (Qfloor (scaled m)) + (1 # 1000) <= scaled m ->
      scaled m <= inject_Z (Qfloor (scaled m)) + 1 - (1 # 1000) ->
      dataIndexAt (Fin w) d (Fin (m + inject_Z o)) = ofZ (Z.of_nat k) /\
      dataIndexAt (Fin w) d (peak_x (findNearestPeak (Fin w) d (Fin m)))
      = ofZ (Z.of_nat k) /\
      peak_value (findNearestPeak (Fin w) d (Fin m)) = Some (Fin 1)).
Proof.
  split.
  - intros width d mouseX cursor res.
    pose proof (peakLoop_shape width d mouseX offsets
                  {| peak_x := mouseX; peak_value := cursor |}) as S.
    pose proof (peakLoop_bound width d mouseX offsets
                  {| peak_x := mouseX; peak_value := cursor |}) as B.
    cbv beta zeta in S, B. cbn [peak_value] in S.
    fold (findNearestPeak width d mouseX) in S, B. fold res in S, B.
    split; [ exact S | ]. split; [ exact B | ]. split.
    + intros None. destruct S as [E | (o & I & P & _ & G)]; [ exact E | ].
      rewrite (None o I P) in G. discriminate G.
    + intros (o & I & P & G).
      destruct S as [E | (o' & I' & P' & E & _)].
      * pose proof (B o I P) as Bo. rewrite E in Bo. cbn [peak_value] in Bo.
        rewrite G in Bo. discriminate Bo.
      * exists o'. auto.
  - intros w d k m o Hw _ Hk Hpeak Hlow M0 M1 I X0 X1 scaled In1 In2 _ _.
    assert (E : Qfloor ((m + inject_Z o) / w * inject_Z (Z.of_nat (length d)))
                = Z.of_nat k).
    { unfold scaled in In1, In2. apply Qfloor_between; lra. }
    destruct (@single_peak w d k Hw Hk Hpeak Hlow m o M0 M1 I X0 X1 E)
      as (q & X & _ & Q0 & Q1 & Iq & V).
    rewrite X, V. split; [ | split; [ | reflexivity ] ].
    + rewrite dataIndexAt_Fin by exact Hw. now rewrite E.
    + rewrite dataIndexAt_Fin by exact Hw. now rewrite Iq.
Qed.

Lemma peakProfile_low (i : nat) (v : num) :
  i <> 5%nat -> nth_error peakProfile i = Some v -> exists q, v = Fin q /\ q < 1.
Proof.
  intros N E.
  do 12 (destruct i as [ | i];
         [ first [ now elim N
                 | injection E as <-; eexists; split; [ reflexivity | reflexivity ] ]
         | ]).
  destruct i; discriminate E.
Defined.

(** [peakProfile] on a canvas of 24 pixels, two per sample: the cursor at
    position 5 (over index 2), the window reaching position 11 (the middle
    of the cell of index 5). *)
Lemma findNearestPeak_spec_witness :
  dataIndexAt (Fin 24) peakProfile (Fin (5 + inject_Z 6)) = ofZ (Z.of_nat 5) /\
  dataIndexAt (Fin 24) peakProfile
    (peak_x (findNearestPeak (Fin 24) peakProfile (Fin 5))) = ofZ (Z.of_nat 5) /\
  peak_value (findNearestPeak (Fin 24) peakProfile (Fin 5)) = Some (Fin 1).
Proof.
  destruct findNearestPeak_spec as (_ & H).
  apply (H 24 peakProfile 5%nat 5 6%Z).
  - reflexivity.
  - vm_compute. discriminate.
  - simpl. lia.
  - reflexivity.
  - exact peakProfile_low.
  - vm_compute. discriminate.
  - reflexivity.
  - apply In_offsets. lia.
  - vm_compute. discriminate.
  - reflexivity.
  - vm_compute. discriminate.
  - vm_compute. discriminate.
  - vm_compute. discriminate.
  - vm_compute. discriminate.
Defined.

(** C7, the claim as stated fails.  On [edgeProfile], shown on a canvas of
    15 pixels, the position 5 qualifies (0.2 over 0.1, 0.15, 0.15, 0.1) and
    lies in the window of a cursor at 10; the search nevertheless returns
    the cursor with its raw value 0.5. *)
Lemma findNearestPeak_keeps_cursor :
  In (-5)%Z offsets /\
  isPeakAt (Fin 15) edgeProfile (add (Fin 10) (ofZ (-5))) = true /\
  valueAt (Fin 15) edgeProfile (add (Fin 10) (ofZ (-5))) = Some (Fin 0.2) /\
  findNearestPeak (Fin 15) edgeProfile (Fin 10)
  = {| peak_x := Fin 10; peak_value := Some (Fin 0.5) |}.
Proof.
  split; [ apply In_offsets; lia | ].
  repeat split; vm_compute; reflexivity.
Qed.

End PeakClaim.

(* ------------------------------------------------------------------ *)
(** ** Column averaging *)

Section Extract.

Import ImageProcessor.
Open Scope Q_scope.

(** The sum of a column whose green bytes all hold [g]. *)
Lemma columnSum_uniform (bytes : list Z) (width x0 g : Z) (n : nat) :
  (forall y, (y < n)%nat ->
             byteAt bytes ((Z.of_nat y * width + x0) * 4 + 1) = ofZ g) ->
  forall q,
  exists s,
    fold_left
      (fun sum y => add sum (byteAt bytes ((Z.of_nat y * width + x0) * 4 + 1)))
      (seq 0 n) (Fin q) = Fin s
    /\ s == q + inject_Z g * inject_Z (Z.of_nat n).
Proof.
  induction n as [ | n IH]; intros H q.
  - exists q. split; [ reflexivity | simpl; ring ].
  - rewrite seq_S, fold_left_app. cbn [fold_left Nat.add].
    destruct (IH (fun y Hy => H y (Nat.lt_lt_succ_r _ _ Hy)) q) as (s & -> & E).
    rewrite (H n (Nat.lt_succ_diag_r n)). unfold ofZ. cbn [add].
    eexists. split; [ reflexivity | ].
    rewrite E, Nat2Z.inj_succ. unfold Z.succ. rewrite inject_Z_plus. ring.
Qed.

(** A region of any positive height over green bytes that all hold [g]
    averages to [g / 255] in every column. *)
Lemma processFrame_uniform (startX stopX startY stopY g : Z) (bytes : list Z) :
  (startX < stopX)%Z -> (startY < stopY)%Z ->
  (forall p, (0 <= p < (stopX - startX) * (stopY - startY))%Z ->
             nth_error bytes (Z.to_nat (p * 4 + 1)) = Some g) ->
  exists values,
    processFrame startX stopX startY stopY bytes
    = Some {| spectrum := values; rawSpectrum := values |} /\
    length values = Z.to_nat (stopX - startX) /\
    Forall (fun v => num_eq v (Fin (inject_Z g / 255))) values.
Proof.
  intros HX HY G. unfold processFrame.
  set (width := (stopX - startX)%Z). set (height := (stopY - startY)%Z).
  fold width height in G.
  assert (W : (width <? 0)%Z = false) by (apply Z.ltb_ge; lia).
  rewrite W. eexists. split; [ reflexivity | ].
  split; [ now rewrite length_map, length_seq | ].
  apply Forall_forall. intros v I.
  apply in_map_iff in I. destruct I as (x0 & <- & I). apply in_seq in I.
  unfold columnSum.
  destruct (@columnSum_uniform bytes width (Z.of_nat x0) g (Z.to_nat height))
    with (q := 0) as (s & -> & E).
  { intros y Hy. unfold byteAt.
    assert (P : (0 <= Z.of_nat y * width + Z.of_nat x0 < width * height)%Z) by nia.
    assert (N : ((Z.of_nat y * width + Z.of_nat x0) * 4 + 1 <? 0)%Z = false)
      by (apply Z.ltb_ge; lia).
    now rewrite N, (G _ P). }
  unfold ofZ. rewrite div_Fin.
  - simpl. rewrite E, Z2Nat.id by lia. rewrite inject_Z_mult.
    assert (Hh : 0 < inject_Z height).
    { change 0 with (inject_Z 0). rewrite <- Zlt_Qlt. lia. }
    change (inject_Z 255) with 255. field. lra.
  - change 0 with (inject_Z 0). rewrite inject_Z_injective. lia.
Qed.

(** The same average in the class with the quantum-efficiency hook: the
    running sum of [byte / 255] and the row count. *)
Lemma columnAcc_uniform (img : QEImageProcessor.ImageData) (x0 : nat) (g : Z) :
  forall n,
  (forall y, (y < n)%nat ->
             byteAt (QEImageProcessor.img_data img)
               ((Z.of_nat y * Z.of_nat (QEImageProcessor.img_width img)
                 + Z.of_nat x0) * 4 + 1) = ofZ g) ->
  exists s,
    fold_left
      (fun (acc : num * nat) y =>
         (add (fst acc)
              (div (byteAt (QEImageProcessor.img_data img)
                      ((Z.of_nat y * Z.of_nat (QEImageProcessor.img_width img)
                        + Z.of_nat x0) * 4 + 1))
                   (Fin 255)),
          S (snd acc)))
      (seq 0 n) (Fin 0, O) = (Fin s, n)
    /\ s == inject_Z (Z.of_nat n) * (inject_Z g / 255).
Proof.
  induction n as [ | n IH]; intros H.
  - exists 0. split; [ reflexivity | simpl; ring ].
  - rewrite seq_S, fold_left_app.
    destruct (IH (fun y Hy => H y (Nat.lt_lt_succ_r _ _ Hy))) as (s & -> & E).
    cbn [fold_left Nat.add fst snd]. rewrite (H n (Nat.lt_succ_diag_r n)). unfold ofZ.
    rewrite div_Fin by discriminate. cbn [add].
    eexists. split; [ reflexivity | ].
    rewrite E, Nat2Z.inj_succ. unfold Z.succ. rewrite inject_Z_plus. ring.
Qed.

Lemma processImageData_uniform
    (p : QEImageProcessor.Processor) (c : Spectragraph.Calibration)
    (img : QEImageProcessor.ImageData) (g : Z) :
  (0 < QEImageProcessor.img_height img)%nat ->
  (forall q, (0 <= q < Z.of_nat (QEImageProcessor.img_width img)
                       * Z.of_nat (QEImageProcessor.img_height img))%Z ->
             nth_error (QEImageProcessor.img_data img) (Z.to_nat (q * 4 + 1)) = Some g) ->
  length (QEImageProcessor.processImageData p c img) = QEImageProcessor.img_width img /\
  Forall (fun pt =>
            num_eq (QEImageProcessor.sp_rawIntensity pt) (Fin (inject_Z g / 255)) /\
            num_eq (QEImageProcessor.sp_intensity pt) (Fin (inject_Z g / 255)))
         (QEImageProcessor.processImageData p c img).
Proof.
  intros HH G. unfold QEImageProcessor.processImageData.
  split; [ now rewrite length_map, length_seq | ].
  apply Forall_forall. intros pt I.
  apply in_map_iff in I. destruct I as (x0 & <- & I). apply in_seq in I.
  cbn [QEImageProcessor.sp_rawIntensity QEImageProcessor.sp_intensity].
  assert (A : exists a, QEImageProcessor.avgIntensity img x0 = Fin a
                        /\ a == inject_Z g / 255).
  { unfold QEImageProcessor.avgIntensity, QEImageProcessor.columnAcc.
    destruct (@columnAcc_uniform img x0 g (QEImageProcessor.img_height img))
      as (s & -> & E).
    { intros y Hy. unfold byteAt.
      set (i := ((Z.of_nat y * Z.of_nat (QEImageProcessor.img_width img)
                  + Z.of_nat x0) * 4 + 1)%Z).
      assert (P : (0 <= Z.of_nat y * Z.of_nat (QEImageProcessor.img_width img)
                        + Z.of_nat x0
                   < Z.of_nat (QEImageProcessor.img_width img)
                     * Z.of_nat (QEImageProcessor.img_height img))%Z) by nia.
      assert (N : (i <? 0)%Z = false) by (apply Z.ltb_ge; unfold i; lia).
      rewrite N. unfold i. now rewrite (G _ P). }
    apply Nat.ltb_lt in HH. rewrite HH. unfold ofZ.
    assert (Hh : 0 < inject_Z (Z.of_nat (QEImageProcessor.img_height img))).
    { change 0 with (inject_Z 0). rewrite <- Zlt_Qlt.
      apply Nat.ltb_lt in HH. lia. }
    rewrite div_Fin by lra. eexists. split; [ reflexivity | ].
    rewrite E. field. lra. }
  destruct A as (a & -> & E). split; [ exact E | ].
  destruct (negb (String.eqb (QEImageProcessor.qeProfile p) "none") &&
            match QEImageProcessor.qeData p with Some _ => true | None => false end).
  - unfold QEImageProcessor.getQECorrection. simpl. rewrite E. ring.
  - exact E.
Qed.

(** C8.  Over a frame whose green bytes are all 128 and a region of positive
    width and 50 rows, [processFrame] produces one value per column of
    [startX, stopX), each equal to 128/255, about 0.50196; raw and displayed
    spectra coincide.  The class with the quantum-efficiency hook computes
    the same values from the same [ImageData]. *)
Theorem processFrame_uniform_128 :
  (forall (startX stopX startY stopY : Z) (bytes : list Z),
      (startX < stopX)%Z -> (stopY - startY = 50)%Z ->
      (forall p, (0 <= p < (stopX - startX) * 50)%Z ->
                 nth_error bytes (Z.to_nat (p * 4 + 1)) = Some 128%Z) ->
      exists values,
        processFrame startX stopX startY stopY bytes
        = Some {| spectrum := values; rawSpectrum := values |} /\
        length values = Z.to_nat (stopX - startX) /\
        Forall (fun v => num_eq v (Fin (128 # 255))) values) /\
  (forall (p : QEImageProcessor.Processor) (c : Spectragraph.Calibration)
          (img : QEImageProcessor.ImageData),
      QEImageProcessor.img_height img = 50%nat ->
      (forall q, (0 <= q < Z.of_nat (QEImageProcessor.img_width img) * 50)%Z ->
                 nth_error (QEImageProcessor.img_data img) (Z.to_nat (q * 4 + 1))
                 = Some 128%Z) ->
      length (QEImageProcessor.processImageData p c img)
      = QEImageProcessor.img_width img /\
      Forall (fun pt =>
                num_eq (QEImageProcessor.sp_rawIntensity pt) (Fin (128 # 255)) /\
                num_eq (QEImageProcessor.sp_intensity pt) (Fin (128 # 255)))
             (QEImageProcessor.processImageData p c img)) /\
  0.50196 < 128 # 255 /\ 128 # 255 < 0.50197.
Proof.
  split; [ | split; [ | split; reflexivity ] ].
  - intros startX stopX startY stopY bytes HX HY G.
    destruct (@processFrame_uniform startX stopX startY stopY 128 bytes)
      as (values & E & Len & F); [ exact HX | lia | now rewrite HY | ].
    exists values. repeat split; assumption.
  - intros p c img HH G.
    apply (@processImageData_uniform p c img 128).
    + rewrite HH. lia.
    + now rewrite HH.
Qed.

(** A region of three columns and 50 rows in which every byte is 128. *)
Lemma processFrame_uniform_128_witness :
  (exists values,
      processFrame 10 13 200 250 (repeat 128%Z 600)
      = Some {| spectrum := values; rawSpectrum := values |} /\
      length values = Z.to_nat (13 - 10) /\
      Forall (fun v => num_eq v (Fin (128 # 255))) values) /\
  length (QEImageProcessor.processImageData QEImageProcessor.profiledProcessor
            Spectragraph.defaultCalibration QEImageProcessor.grayStrip) = 3%nat.
Proof.
  destruct processFrame_uniform_128 as (A & B & _). split.
  - apply (A 10 13 200 250 (repeat 128%Z 600))%Z.
    + lia.
    + reflexivity.
    + intros p Hp. apply nth_error_repeat. lia.
  - apply (B QEImageProcessor.profiledProcessor Spectragraph.defaultCalibration
             QEImageProcessor.grayStrip).
    + reflexivity.
    + intros q Hq. apply nth_error_repeat.
      change (Z.of_nat (QEImageProcessor.img_width QEImageProcessor.grayStrip))
        with 3%Z in Hq. lia.
Defined.

End Extract.

(* ------------------------------------------------------------------ *)
(** ** Quantum-efficiency correction *)

Section QECorrection.

Import Spectragraph QEImageProcessor.
Open Scope Q_scope.

Lemma mul_one_r (a : num) : num_eq (mul a (Fin 1)) a.
Proof.
  destruct a as [q | | | ]; simpl; auto. ring.
Qed.

Lemma num_eq_refl (a : num) : num_eq a a.
Proof. destruct a; simpl; auto. reflexivity. Qed.

(** Whatever the profile, the corrected intensity of a column is its raw
    intensity. *)
Lemma processImageData_uncorrected (p : Processor) (c : Calibration) (img : ImageData) :
  Forall (fun pt => num_eq (sp_intensity pt) (sp_rawIntensity pt))
         (processImageData p c img).
Proof.
  unfold processImageData. apply Forall_forall. intros pt I.
  apply in_map_iff in I. destruct I as (x0 & <- & _). simpl.
  destruct (negb (String.eqb (qeProfile p) "none") &&
            match qeData p with Some _ => true | None => false end).
  - unfold getQECorrection. apply mul_one_r.
  - apply num_eq_refl.
Qed.

(** C9, the code at the failing input.  [getQECorrection] is the constant 1,
    so every corrected intensity equals the raw one whatever profile is
    selected.  With the generated profile selected, profile data
    (400, 0.4), (410, 0.6) present and a white pixel in the column of pixel
    1623 (405.4 nm), the code yields the corrected intensity 1, where
    interpolation between the two bracketing points gives the efficiency
    0.508 and the corrected intensity 0.508. *)
Theorem getQECorrection_constant :
  (forall w, getQECorrection w = Fin 1) /\
  (forall p c img,
      Forall (fun pt => num_eq (sp_intensity pt) (sp_rawIntensity pt))
             (processImageData p c img)) /\
  (exists w i r,
      processImageData profiledProcessor defaultCalibration whitePixel
      = [ {| sp_wavelength := Some (Fin w); sp_intensity := Fin i;
             sp_rawIntensity := Fin r |} ] /\
      w == 405.4 /\ r == 1 /\ i == 1 /\
      efficiency_spec (qeData profiledProcessor) w == 0.508 /\
      correct_spec (qeData profiledProcessor) w r == 0.508 /\
      ~ i == correct_spec (qeData profiledProcessor) w r).
Proof.
  split; [ reflexivity | ].
  split; [ apply processImageData_uncorrected | ].
  eexists _, _, _. split; [ vm_compute; reflexivity | ].
  repeat split; try (vm_compute; reflexivity).
  vm_compute. discriminate.
Qed.

(** The parts of the correction that the code does provide: the product
    form, and the factor 1 of the None profile. *)
Lemma efficiency_spec_none (w r : Q) :
  efficiency_spec None w = 1 /\ correct_spec None w r == r.
Proof. split; [ reflexivity | unfold correct_spec; simpl; ring ]. Qed.

End QECorrection.

(* ------------------------------------------------------------------ *)
(** ** The wavelength axes of the recorder and of the CSV export *)

Section Formatting.

Open Scope Q_scope.

Variable scale : Z.
Hypothesis scale_pos : (0 < scale)%Z.

Let sc : Q := inject_Z scale.
Let digits (x : Q) : Q := inject_Z (Qfloor (x * sc + (1 # 2))) / sc.





End Formatting.


Section Axes.

Import Spectragraph RecordingManager.
Open Scope Q_scope.




(** *** The recorder's grid *)



(** *** The export's pixel positions and wavelengths *)




End Axes.

Section RecordedAxis.

Import Spectragraph RecordingManager.
Open Scope Q_scope.





(** *** The rows written by the export *)








End RecordedAxis.

(* ------------------------------------------------------------------ *)
(** ** The second copy of the class *)

Section SecondCopy.

Import Spectragraph.
Open Scope Q_scope.

(** Without min and max, the range of the default calibration comes out in
    decreasing order. *)
Lemma copy_sensorRange_unordered :
  let r := SpectragraphCopy.calculateSensorRange defaultCalibration in
  num_eq (start r) (Fin 1274.65) /\ num_eq (end_ r) (Fin 246.33) /\
  ltb (end_ r) (start r) = true.
Proof. cbv zeta. repeat split; vm_compute; reflexivity. Qed.

(** The copy's [updateDisplayRange] rejects [start >= end], [NaN] bounds
    and, under a sensor range of {200, 1200}, the request (100, 150). *)
Lemma copy_updateDisplayRange_rejects (st : State) (a b : num) :
  (geb a b = true -> SpectragraphCopy.updateDisplayRange st a b = st) /\
  SpectragraphCopy.updateDisplayRange st NaN b = st /\
  SpectragraphCopy.updateDisplayRange st a NaN = st /\
  SpectragraphCopy.updateDisplayRange
    (set_calibration st calibration_200_1200) (Fin 100) (Fin 150)
  = set_calibration st calibration_200_1200.
Proof.
  unfold SpectragraphCopy.updateDisplayRange. repeat split.
  - now intros ->.
  - replace (geb NaN b) with false by now destruct b.
    change (min NaN ?u) with NaN. rewrite max_NaN_r, sub_NaN_r.
    now rewrite !Tauto.if_same.
  - replace (geb a NaN) with false by now destruct a.
    change (max NaN ?u) with NaN. rewrite min_NaN_r.
    change (sub NaN ?u) with NaN. cbn [ltb cmp].
    match goal with |- context [ltb ?u NaN] => replace (ltb u NaN) with false
    end; [ reflexivity | ].
    now destruct (max _ _).
Qed.

(** From the constructor's state, one zoom-out at the left edge takes the
    copy's display range past the end of the sensor range. *)
Lemma copy_handleZoom_leaves_sensorRange :
  let st := SpectragraphCopy.handleZoom (constructor (Fin 960)) (Fin 0) (Fin 100) in
  range_eq (displayRange st) {| start := Fin 350; end_ := Fin 1285 |} /\
  gtb (end_ (displayRange st))
      (end_ (calculateSensorRange (calibration st))) = true.
Proof. cbv zeta. repeat split; vm_compute; reflexivity. Qed.

(** On finite inputs, a zoom that the copy accepts leaves a span equal to
    the requested one, between 100 and 2000. *)
Lemma copy_handleZoom_span (st : State) (a b w z m : Q) (deltaY : num) :
  displayRange st = {| start := Fin a; end_ := Fin b |} ->
  canvas_width st = Fin w -> zoomFactor st = Fin z ->
  ~ w == 0 -> ~ z == 0 ->
  SpectragraphCopy.handleZoom st (Fin m) deltaY = st \/
  exists a' b',
    displayRange (SpectragraphCopy.handleZoom st (Fin m) deltaY)
    = {| start := Fin a'; end_ := Fin b' |} /\
    100 <= b' - a' /\ b' - a' <= 2000.
Proof.
  intros D W Z Hw Hz. unfold SpectragraphCopy.handleZoom.
  rewrite D, W, Z. cbn [start end_].
  rewrite (div_Fin m Hw).
  change (sub (Fin b) (Fin a)) with (Fin (b + - a)).
  assert (R : exists r,
             (if gtb deltaY (Fin 0) then mul (Fin (b + - a)) (Fin z)
              else div (Fin (b + - a)) (Fin z)) = Fin r /\
             (b + - a == 0 -> r == 0)).
  { destruct (gtb deltaY (Fin 0)).
    - eexists. split; [ reflexivity | ]. intros ->. ring.
    - rewrite div_Fin by exact Hz. eexists. split; [ reflexivity | ].
      intros ->. field. exact Hz. }
  destruct R as (r & -> & R0).
  destruct (geb (Fin r) (Fin 100) && leb (Fin r) (Fin 2000)) eqn:G;
    [ right | now left ].
  apply andb_true_iff in G. destruct G as [G1 G2].
  apply geb_Fin in G1. apply leb_Fin in G2.
  assert (N : ~ b + - a == 0) by (intros E; apply R0 in E; lra).
  assert (C : exists c,
             (if isReversed st
              then sub (Fin b) (mul (Fin (m / w)) (Fin (b + - a)))
              else add (Fin a) (mul (Fin (m / w)) (Fin (b + - a)))) = Fin c)
    by (destruct (isReversed st); eexists; reflexivity).
  destruct C as (c & ->).
  change (sub (Fin c) (Fin a)) with (Fin (c + - a)).
  rewrite (div_Fin (c + - a) N).
  set (s0 := c + - (r * ((c + - a) / (b + - a)))).
  change (sub (Fin c) (mul (Fin r) (Fin ((c + - a) / (b + - a))))) with (Fin s0).
  change (add (Fin s0) (Fin r)) with (Fin (s0 + r)).
  change (add (Fin 200) (Fin r)) with (Fin (200 + r)).
  change (sub (Fin 2000) (Fin r)) with (Fin (2000 + - r)).
  destruct (ltb (Fin s0) (Fin 200));
    match goal with
    | |- context [gtb ?u ?v] => destruct (gtb u v)
    end; cbn [displayRange set_displayRange];
    eexists _, _; (split; [ reflexivity | lra ]).
Qed.

End SecondCopy.
